(** * Verb: the [process] / [expand] pipeline of [index.js]

    A shallow embedding of the orchestration layer of Verb (the
    documentation generator): the context builder and busy-wait of
    [verb.process], the single-file driver [verb.read], and the batch
    driver [verb.expand].

    JavaScript objects are finite maps from property names to values,
    the module-level [verb] object is a record threaded through every
    call, the file system is a finite map from paths to contents, and
    everything the program prints or writes is appended to a trace.
    The modules that [index.js] requires but does not define
    ([lib/config], [lib/data], [lib/tags], [lib/exclusions], [fs-utils],
    ...) are the fields of the class [Libs]. *)

From stdpp Require Import gmap strings list fin_maps pretty.

Open Scope string_scope.

(** ** JavaScript values *)

Module JS.

#[warnings="-register-all"] Inductive Value : Type :=
  | VUndef
  | VNull
  | VBool (b : bool)
  | VNum (n : Z)
  | VStr (s : string)
  | VObj (o : gmap string Value)
  | VFun (name : string).

(** Only integer-valued numbers are represented ([maxDepth: 2]). *)

Abbreviation Obj := (gmap string Value).

(** [ToBoolean]. *)
Definition truthy (v : Value) : bool :=
  match v with
  | VUndef | VNull => false
  | VBool b => b
  | VNum n => negb (n =? 0)%Z
  | VStr s => negb (String.eqb s EmptyString)
  | VObj _ | VFun _ => true
  end.

(** [a || b]. *)
Definition or_else (a b : Value) : Value := if truthy a then a else b.

(** The own properties of a value; a primitive has none. *)
Definition as_obj (v : Value) : Obj :=
  match v with VObj o => o | _ => ∅ end.

(** [o.k]: a missing property reads as [undefined]. *)
Definition get (k : string) (o : Obj) : Value := default VUndef (o !! k).

(** [_.extend(dst, src)]: every own property of [src] is assigned to
    [dst], a source that is not an object contributes nothing. *)
Definition extend (dst : Obj) (src : Value) : Obj := as_obj src ∪ dst.

(** [ToString], as far as separators need it. *)
Definition to_string (v : Value) : string :=
  match v with
  | VUndef => "undefined"
  | VNull => "null"
  | VBool true => "true"
  | VBool false => "false"
  | VNum n => pretty n
  | VStr s => s
  | VObj _ => "[object Object]"
  | VFun name => name
  end.

Fixpoint join_with (sep : string) (xs : list string) : string :=
  match xs with
  | [] => EmptyString
  | [x] => x
  | x :: rest => x +:+ sep +:+ join_with sep rest
  end.

(** [Array.prototype.join(sep)]: an [undefined] separator is a comma. *)
Definition join (sep : Value) (xs : list string) : string :=
  join_with (match sep with VUndef => "," | _ => to_string sep end) xs.

End JS.
Import JS.

Definition nl : string := String (Ascii.ascii_of_nat 10) EmptyString.
Definition dquote : string := String (Ascii.ascii_of_nat 34) EmptyString.

(** ** The data model *)

(** The result of front-matter extraction, [verb.page]. *)
Record Page := { page_context : Value; page_content : string }.

(** A source-destination mapping, as [file.expandMapping] returns them. *)
Record Mapping := { m_src : list string; m_dest : string }.

(** The module object [verb]: the properties that [index.js] assigns. *)
Record Verb := MkVerb {
  initalized : bool;
  mode_verbose : Value;
  ext : Value;
  runner : Value;
  verbrc : Value;
  options : option Obj;
  config : option Obj;
  context : Obj;
  layout : Value;
  page : option Page;
}.

(** Assignments to the properties of [verb]. *)
Definition set_options (o : option Obj) (v : Verb) : Verb :=
  let 'MkVerb i m e r rc _ cf cx l p := v in MkVerb i m e r rc o cf cx l p.

Definition set_config (c : option Obj) (v : Verb) : Verb :=
  let 'MkVerb i m e r rc o _ cx l p := v in MkVerb i m e r rc o c cx l p.

Definition set_context (c : Obj) (v : Verb) : Verb :=
  let 'MkVerb i m e r rc o cf _ l p := v in MkVerb i m e r rc o cf c l p.

Definition set_layout (l : Value) (v : Verb) : Verb :=
  let 'MkVerb i m e r rc o cf cx _ p := v in MkVerb i m e r rc o cf cx l p.

Definition set_page (p : Page) (v : Verb) : Verb :=
  let 'MkVerb i m e r rc o cf cx l _ := v in
  MkVerb i m e r rc o cf cx l (Some p).

(** [verb.context = verb.config || {}] makes the context the very object
    held in [verb.config]; until [verb.context] is assigned again, a
    mutation of the context is a mutation of that shared object. *)
Definition update_context (f : Obj → Obj) (v : Verb) : Verb :=
  let 'MkVerb i m e r rc o cf cx l p := v in
  MkVerb i m e r rc o (f <$> cf) (f cx) l p.

(** The same once [verb.context] is an object of its own. *)
Definition update_context' (f : Obj → Obj) (v : Verb) : Verb :=
  let 'MkVerb i m e r rc o cf cx l p := v in
  MkVerb i m e r rc o cf (f cx) l p.

(** The module object after [index.js] has been loaded (lines 25-81). *)
Definition verb0 : Verb :=
  {| initalized := false;
     mode_verbose := VBool false;
     ext := VStr ".md";
     runner := VObj {[ "name" := VStr "Verb";
                       "url" := VStr "https://github.com/assemble/verb" ]};
     verbrc := VObj ∅;
     options := None;
     config := None;
     context := ∅;
     layout := VUndef;
     page := None |}.

(** What the program prints and writes. *)
Inductive Event :=
  | Log (channel : string) (args : list string)
  | Write (dest : string) (content : string).

(** ** The required modules

    [index.js] calls these for their results.  A function that is handed
    [verb] reads the record it is given; one that may touch the disk or
    the event loop is handed that part of the state.  All of them return:
    a failure inside one of them ends the run before anything below
    applies.

    The event loop is seen through the callback of [verb.tags.resolve]:
    [tags_resolve] is the call on line 164, [nextTick] one
    [process.nextTick()], and [delivered] the [results] the callback was
    invoked with, if it has been invoked. *)

Class Libs := {
  World : Type;
  nextTick : World → World;
  tags_resolve : Verb → string → World → World;
  delivered : World → option string;
  (** [cwd], [process.cwd()], [relative], [fs-utils] *)
  cwd : string → string;
  process_cwd : string;
  relative : string → string → string;
  hasExt : string → bool;
  expandMapping : gmap string string → string → Obj → list Mapping;
  (** [config-file], [lib/config], [lib/layout], [lib/data] *)
  configFile_load : string → Value;
  config_init : Value → option Obj;
  layout_init : Verb → Value;
  data_init : Obj → Value;
  (** [lib/tags], [lib/filters], [lib/matter], [lib/exclusions],
      [lib/plugins] *)
  tags_init : Verb → Value;
  filters_init : Verb → Value;
  matter : string → Obj → Page;
  exclusions : Obj → Obj → Obj;
  plugins_init : Verb → Value;
  (** [lib/template], [lib/utils], [marked-toc] *)
  template : string → Obj → Value → string;
  postProcess : string → Obj → string;
  toc_insert : string → Value → string;
}.

(** ** The program state and its monad *)

Record State `{Libs} := MkState {
  verb : Verb;
  fs : gmap string string;
  trace : list Event;
  loop : World;
}.

Arguments MkState {_} _ _ _ _.

Section Monad.
Context `{L : Libs}.

(** A computation changes the state and returns, or throws ([None]) or
    runs out of fuel in the busy-wait (also [None]). *)
Definition M (A : Type) : Type := State → option (A * State).

Definition ret {A} (a : A) : M A := λ st, Some (a, st).

Definition bind {A B} (m : M A) (k : A → M B) : M B :=
  λ st, match m st with
        | Some (a, st') => k a st'
        | None => None
        end.

Definition with_verb (f : Verb → Verb) : M unit :=
  λ '(MkState v f0 t w), Some (tt, MkState (f v) f0 t w).

Definition emit (e : Event) : M unit :=
  λ '(MkState v f0 t w), Some (tt, MkState v f0 (t ++ [e]) w).

(** [verb.log], [verb.log.error], [verb.verbose.run], ...: one line on
    the channel of that name. *)
Definition log (channel : string) (args : list string) : M unit :=
  emit (Log channel args).

Definition get_verb : M Verb := λ st, Some (verb st, st).

Definition get_fs : M (gmap string string) := λ st, Some (fs st, st).

Fixpoint filterM {A} (f : A → M bool) (l : list A) : M (list A) :=
  match l with
  | [] => ret []
  | x :: rest =>
      let keep := f x in
      bind keep (λ b, bind (filterM f rest)
                        (λ ys, ret (if b : bool then x :: ys else ys)))
  end.

Fixpoint mapM {A B} (f : A → M B) (l : list A) : M (list B) :=
  match l with
  | [] => ret []
  | x :: rest => bind (f x) (λ y, bind (mapM f rest) (λ ys, ret (y :: ys)))
  end.

Fixpoint foldM {A B} (f : B → A → M B) (b : B) (l : list A) : M B :=
  match l with
  | [] => ret b
  | x :: rest => bind (f b x) (λ b', foldM f b' rest)
  end.

End Monad.

Notation "'let!' x ':=' m 'in' k" := (bind m (λ x, k))
  (at level 10, x pattern, m at level 100, k at level 200, only parsing).
Notation "'do!' m 'in' k" := (bind m (λ _, k))
  (at level 10, m at level 100, k at level 200, only parsing).

(** ** The program *)

Section Program.
Context `{L : Libs}.

(** [fs-utils]: [file.exists], [file.readFileSync] (which throws on a
    missing file) and [file.writeFileSync]. *)
Definition file_exists (f : gmap string string) (p : string) : bool :=
  bool_decide (is_Some (f !! p)).

Definition readFileSync (p : string) : M string :=
  λ st, match fs st !! p with
        | Some c => Some (c, st)
        | None => None
        end.

Definition writeFileSync (dest content : string) : M unit :=
  λ '(MkState v f0 t w),
    Some (tt, MkState v (<[dest := content]> f0) (t ++ [Write dest content]) w).

(** [verb.init] (lines 89-102).  The mixins installed into Lo-Dash are
    not part of the state. *)
Definition init (o : Value) (v : Verb) : Verb :=
  let o := or_else o (VObj ∅) in
  let 'MkVerb i m e r rc op cf cx l p := v in
  if i then v
  else MkVerb true (or_else (get "verbose" (as_obj o)) m) e r rc op cf cx l p.

(** *** [verb.process] (lines 109-183) *)

(** Line 110. *)
Definition default_opts (o : Value) : Obj :=
  extend {[ "toc" := VObj {[ "maxDepth" := VNum 2 ]} ]} o.

(** Lines 116-123: the options after the runtime config is merged in. *)
Definition merged_opts (o : Value) (v : Verb) : Obj :=
  let opts := default_opts o in
  let runtimeConfig :=
    if truthy (get "verbrc" opts)
    then configFile_load (cwd (to_string (get "verbrc" opts)))
    else verbrc v in
  extend opts runtimeConfig.

(** [_.extend(verb.context, f(verb))] while the context is still the
    object in [verb.config], and once it is an object of its own. *)
Definition merge (f : Verb → Value) (v : Verb) : Verb :=
  let x := f v in update_context (λ c, extend c x) v.

Definition add (f : Verb → Value) (v : Verb) : Verb :=
  let x := f v in update_context' (λ c, extend c x) v.

(** Lines 110-129: the base context is the package configuration,
    without its [config] property. *)
Definition base (o : Value) (v : Verb) : Verb :=
  let opts := merged_opts o v in
  let v := init (VObj (default_opts o)) v in
  let v := set_options (Some opts) v in
  let v := set_config (config_init (get "config" opts)) v in
  let v := (λ '(MkVerb i m e r rc op cf _ l p),
              MkVerb i m e r rc op cf (default ∅ cf) l p) v in
  update_context (delete "config") v.

(** Lines 132-151: everything merged before the exclusion filter. *)
Definition gather (src : string) (o : Value) (v : Verb) : Verb :=
  let opts := merged_opts o v in
  let v := base o v in
  let v := (λ v, set_layout (layout_init v) v) v in
  let v := merge (λ _, VObj opts) v in
  let v := merge (λ _, or_else (get "metadata" opts) (VObj ∅)) v in
  let v := merge (λ _, data_init opts) v in
  let v := merge tags_init v in
  let v := merge filters_init v in
  let v := merge (λ _, data_init opts) v in
  let v := set_page (matter src opts) v in
  merge (λ _, page_context (matter src opts)) v.

(** Lines 154-158.  The exclusion filter hands back the context that
    [verb.context] holds from then on. *)
Definition build (src : string) (o : Value) (v : Verb) : Verb :=
  let opts := merged_opts o v in
  let v := gather src o v in
  let v := update_context' (λ c, exclusions c opts) v in
  let v := add (λ v, VObj {[ "runner" := runner v ]}) v in
  add plugins_init v.

(** Lines 169-171: [while (!renderDone) { process.nextTick(); }].  The
    flag is set by the resolver's callback; [fuel] bounds the number of
    iterations. *)
Fixpoint spin (fuel : nat) (w : World) : option World :=
  match delivered w, fuel with
  | Some _, _ => Some w
  | None, O => None
  | None, S n => spin n (nextTick w)
  end.

Record Result := {
  r_verb : Verb;
  r_context : Obj;
  r_content : string;
  r_original : string;
}.

(** The event loop once [verb.tags.resolve] has been called (line 164). *)
Definition resolving (src : string) (o : Value) (st : State) : World :=
  let opts := merged_opts o (verb st) in
  let v := build src o (verb st) in
  let settings := or_else (get "settings" opts) (VObj ∅) in
  let rendered := template (page_content (matter src opts)) (context v)
                    settings in
  tags_resolve v rendered (loop st).

Definition process (fuel : nat) (src : string) (o : Value) : M Result :=
  λ '(MkState v0 f0 t0 w0),
    let opts := merged_opts o v0 in
    let v := build src o v0 in
    let settings := or_else (get "settings" opts) (VObj ∅) in
    let rendered := template (page_content (matter src opts)) (context v)
                      settings in
    match spin fuel (tags_resolve v rendered w0) with
    | None => None
    | Some w =>
        let rendered := default rendered (delivered w) in
        let result := postProcess rendered opts in
        let result := toc_insert result (get "toc" opts) in
        Some ({| r_verb := v; r_context := context v; r_content := result;
                 r_original := src |},
              MkState v f0 t0 w)
    end.

(** *** [verb.read] (lines 194-209) *)
Definition read (fuel : nat) (src : string) (o : Value) : M string :=
  let o := or_else o (VObj ∅) in
  do! with_verb (init o) in
  do! with_verb (λ v,
        set_options
          (Some (extend (<["src" := VStr (cwd src)]> (default ∅ (options v)))
                   o)) v) in
  do! log "verbose.write" [] in
  do! log "verbose.run" ["processing"; relative process_cwd src] in
  let! content := readFileSync src in
  let! r := process fuel content o in
  ret (r_content r).

(** *** [verb.expand] (lines 264-332) *)

(** Lines 265-266. *)
Definition expand_opts (o : Value) : Obj :=
  let opts := extend {[ "concat" := VBool false ]} o in
  <["glob" := or_else (get "glob" opts) (VObj ∅)]> opts.

(** Lines 275-281 and 287: the defaults handed to [file.expandMapping]. *)
Definition mapping_defaults (opts : Obj) (dest : string) (v : Verb) : Obj :=
  let defaults : Obj :=
    {[ "sep" := or_else (get "sep" opts) (VStr nl);
       "cwd" := or_else (get "cwd" opts) (VStr (cwd "."));
       "ext" := or_else (ext v) (get "ext" opts);
       "destBase" := VStr dest ]} in
  let defaults := <["srcBase" := get "cwd" defaults]> defaults in
  extend defaults (get "glob" opts).

(** Line 283. *)
Definition concat_of (opts : Obj) (dest : string) : Value :=
  or_else (or_else (get "concat" opts) (VBool (hasExt dest))) (VBool false).

Definition not_found (filepath : string) : string :=
  ">> Source file " +:+ dquote +:+ filepath +:+ dquote +:+ " not found.".

(** Lines 294-300: the callback of [fp.src.filter]. *)
Definition check_source (filepath : string) : M bool :=
  let! f := get_fs in
  if file_exists f filepath then ret true
  else do! log "error" [not_found filepath] in ret false.

(** [verb.options.src = filepath] and the [reading] line (lines 302-303
    and 316-319). *)
Definition announce (filepath : string) : M unit :=
  do! with_verb (λ v,
        set_options (Some (<["src" := VStr filepath]> (default ∅ (options v))))
          v) in
  log "run" ["reading"; relative process_cwd filepath].

(** Lines 301-311: the callback of the inner [map]; [defer] is the array
    the closure pushes to. *)
Definition each_source (fuel : nat) (concat : Value) (opts : Obj)
    (fp : Mapping) (defer : list string) (filepath : string)
  : M (list string) :=
  do! announce filepath in
  if negb (truthy concat) then
    let! content := read fuel filepath (VObj opts) in
    do! writeFileSync (m_dest fp) content in
    do! log "subhead" ["writing"; relative process_cwd (m_dest fp)] in
    ret defer
  else ret (defer ++ [filepath])%list.

(** Lines 293-312: the callback of the outer [map]. *)
Definition each_mapping (fuel : nat) (concat : Value) (opts : Obj)
    (defer : list string) (fp : Mapping) : M (list string) :=
  let! existing := filterM check_source (m_src fp) in
  foldM (each_source fuel concat opts fp) defer existing.

(** Lines 315-322: the callback of [_.flatten(defer).map]; [defer] holds
    strings only, so flattening leaves it as it is. *)
Definition read_deferred (fuel : nat) (opts : Obj) (filepath : string)
  : M string :=
  do! announce filepath in
  read fuel filepath (VObj opts).

(** Lines 265-312.  [_.extend(options, verb.options)] on line 273 changes
    the caller's object only, after [opts] has been copied from it. *)
Definition discover (fuel : nat) (src dest : string) (o : Value)
  : M (list string) :=
  let opts := expand_opts o in
  do! with_verb (init (VObj opts)) in
  do! with_verb (λ v,
        set_options (Some (<["dest" := VStr (cwd dest)]> (default ∅ (options v))))
          v) in
  let! v := get_verb in
  let defaults := mapping_defaults opts dest v in
  let concat := concat_of opts dest in
  do! log "write" [] in
  do! log "log" [nl +:+ "  Expanding files:"; src] in
  let! f := get_fs in
  foldM (each_mapping fuel concat opts) [] (expandMapping f src defaults).

(** Lines 314-327. *)
Definition concatenate (fuel : nat) (dest : string) (opts : Obj)
    (defer : list string) : M unit :=
  let! outs := mapM (read_deferred fuel opts) defer in
  do! writeFileSync dest (join (get "sep" opts) outs) in
  log "subhead" ["writing"; relative process_cwd dest].

(** Lines 329-331. *)
Definition farewell : M unit :=
  do! log "write" [] in
  let! v := get_verb in
  log "success" ["  " +:+ to_string (get "name" (as_obj (runner v)))
                 +:+ " [done]"].

Definition expand (fuel : nat) (src dest : string) (o : Value) : M unit :=
  let opts := expand_opts o in
  let concat := concat_of opts dest in
  let! defer := discover fuel src dest o in
  do! (if truthy concat then concatenate fuel dest opts defer else ret tt) in
  farewell.

End Program.

(** *** [verb.copy] (lines 221-243) *)

Section Copy.
Context `{L : Libs}.

(** [file.normalizeSlash], of [fs-utils]. *)
Variable normalizeSlash : string → string.

(** [_.extend(options, verb.options)] on line 229 assigns to the object
    that line 236 hands to [verb.read]; assigning to a primitive leaves
    it as it is. *)
Definition extended (dst src : Value) : Value :=
  match dst with
  | VObj d => VObj (extend d src)
  | _ => dst
  end.

Definition copy (fuel : nat) (src dest : string) (o : Value) : M unit :=
  let o := or_else o (VObj ∅) in
  do! with_verb (init o) in
  do! with_verb (λ v,
        set_options
          (Some (<["dest" := VStr (cwd dest)]>
                   (<["src" := VStr (cwd src)]> (default ∅ (options v)))))
          v) in
  let! v := get_verb in
  let o := extended o (VObj (default ∅ (options v))) in
  do! log "write" [] in
  do! log "subhead" ["reading"; normalizeSlash src] in
  let! content := read fuel src o in
  do! writeFileSync dest content in
  do! log "run" ["writing"; relative process_cwd dest] in
  farewell.

End Copy.

(** ** What a run leaves behind *)

(** The files written, and the messages logged as errors, in order. *)
Definition writes (t : list Event) : list (string * string) :=
  flat_map (λ e, match e with
                 | Write d c => [(d, c)]
                 | Log _ _ => []
                 end) t.

Definition errors (t : list Event) : list string :=
  flat_map (λ e, match e with
                 | Log ch args => if String.eqb ch "error" then args else []
                 | Write _ _ => []
                 end) t.

(** The matched paths that exist in [f], and those that do not, in the
    order in which the mappings list them. *)
Definition existing (f : gmap string string) (maps : list Mapping)
  : list string :=
  flat_map (λ fp, List.filter (file_exists f) (m_src fp)) maps.

Definition missing (f : gmap string string) (maps : list Mapping)
  : list string :=
  flat_map (λ fp, List.filter (λ p, negb (file_exists f p)) (m_src fp)) maps.

(** Without concatenation the files written for one mapping are on disk
    when the next mapping is checked.  With [E] the set of paths on
    disk: the destinations written, one for each path found, and the
    paths reported, one for each path not found. *)
Definition found (E : gset string) (fp : Mapping) : list string :=
  List.filter (λ p, bool_decide (p ∈ E)) (m_src fp).

Definition after (E : gset string) (fp : Mapping) : gset string :=
  match found E fp with
  | [] => E
  | _ :: _ => {[ m_dest fp ]} ∪ E
  end.

Fixpoint written (E : gset string) (maps : list Mapping) : list string :=
  match maps with
  | [] => []
  | fp :: rest => (map (λ _, m_dest fp) (found E fp) ++ written (after E fp) rest)%list
  end.

Fixpoint reported (E : gset string) (maps : list Mapping) : list string :=
  match maps with
  | [] => []
  | fp :: rest =>
      (List.filter (λ p, negb (bool_decide (p ∈ E))) (m_src fp)
       ++ reported (after E fp) rest)%list
  end.

(** A step that writes no file and reports the messages [es]. *)
Definition logs `{Libs} (es : list string) (st st' : State) : Prop :=
  fs st' = fs st
  ∧ writes (trace st') = writes (trace st)
  ∧ errors (trace st') = (errors (trace st) ++ es)%list.

(** The tag resolver keeps the promise of calling back, within [fuel]
    yields. *)
Definition calls_back `{Libs} (fuel : nat) : Prop :=
  ∀ v rendered w,
    ∃ n, (n ≤ fuel)%nat
         ∧ is_Some (delivered (Nat.iter n nextTick (tags_resolve v rendered w))).

(** ** A small tool chain to run the program on

    The resolver calls back after [delay] yields ([None]: never), the
    front matter of every source is [frontmatter], the exclusion filter
    omits the keys [omitted], the plugins contribute [plugin], the glob
    expands to [mappings]; everything else is the identity or empty. *)

Module Sample.

Record Setup := {
  delay : option nat;
  frontmatter : Value;
  omitted : list string;
  plugin : Value;
  mappings : list Mapping;
}.

Definition tick (w : option nat * string) : option nat * string :=
  match w with
  | (Some (S n), r) => (Some n, r)
  | _ => w
  end.

Definition fired (w : option nat * string) : option string :=
  match w with
  | (Some O, r) => Some r
  | _ => None
  end.

Fixpoint has_dot (s : string) : bool :=
  match s with
  | EmptyString => false
  | String a rest => Ascii.eqb a (Ascii.ascii_of_nat 46) || has_dot rest
  end.

Definition libs (s : Setup) : Libs :=
  {| World := option nat * string;
     nextTick := tick;
     tags_resolve := λ _ rendered _, (delay s, rendered);
     delivered := fired;
     cwd := λ p, p;
     process_cwd := ".";
     relative := λ _ p, p;
     hasExt := has_dot;
     expandMapping := λ _ _ _, mappings s;
     configFile_load := λ _, VObj ∅;
     config_init := λ c, Some (as_obj c);
     layout_init := λ _, VUndef;
     data_init := λ _, VObj ∅;
     tags_init := λ _, VObj ∅;
     filters_init := λ _, VObj ∅;
     matter := λ src _, {| page_context := frontmatter s;
                           page_content := src |};
     exclusions := λ c _, foldr delete c (omitted s);
     plugins_init := λ _, plugin s;
     template := λ content _ _, content;
     postProcess := λ r _, r;
     toc_insert := λ r _, r |}.

Definition plain : Setup :=
  {| delay := Some 0; frontmatter := VObj ∅; omitted := [];
     plugin := VObj ∅; mappings := [] |}.

Definition fronted : Setup :=
  {| delay := Some 0;
     frontmatter := VObj {[ "title" := VStr "C"; "runner" := VStr "C" ]};
     omitted := []; plugin := VObj ∅; mappings := [] |}.

Definition omitting : Setup :=
  {| delay := Some 0; frontmatter := VObj ∅; omitted := ["config"];
     plugin := VObj ∅; mappings := [] |}.

Definition plugged : Setup :=
  {| delay := Some 0; frontmatter := VObj ∅; omitted := [];
     plugin := VObj {[ "runner" := VStr "plugin" ]}; mappings := [] |}.

Definition slow (n : nat) : Setup :=
  {| delay := Some n; frontmatter := VObj ∅; omitted := [];
     plugin := VObj ∅; mappings := [] |}.

Definition silent : Setup :=
  {| delay := None; frontmatter := VObj ∅; omitted := [];
     plugin := VObj ∅; mappings := [] |}.

(** [{config: {title: 'A', runner: 'A'}, metadata: {title: 'B', runner: 'B'}}] *)
Definition titled : Value :=
  VObj {[ "config" := VObj {[ "title" := VStr "A"; "runner" := VStr "A" ]};
          "metadata" := VObj {[ "title" := VStr "B"; "runner" := VStr "B" ]} ]}.

(** Two mappings; the second lists the destination of the first among
    its sources. *)
Definition docs : list Mapping :=
  [ {| m_src := ["docs/a.md"; "docs/gone.md"]; m_dest := "out/a.md" |};
    {| m_src := ["out/a.md"; "docs/b.md"]; m_dest := "out/b.md" |} ].

Definition batch : Setup :=
  {| delay := Some 0; frontmatter := VObj ∅; omitted := [];
     plugin := VObj ∅; mappings := docs |}.

Definition disk : gmap string string :=
  {[ "docs/a.md" := "A"; "docs/b.md" := "B" ]}.

(** [{sep: '--'}], [{ext: '.html'}] and
    [{ext: '.txt', cwd: 'src', glob: {ext: '.html', cwd: 'lib'}}] *)
Definition dashed : Value := VObj {[ "sep" := VStr "--" ]}.

Definition html : Value := VObj {[ "ext" := VStr ".html" ]}.

Definition globbed : Value :=
  VObj {[ "ext" := VStr ".txt"; "cwd" := VStr "src";
          "glob" := VObj {[ "ext" := VStr ".html"; "cwd" := VStr "lib" ]} ]}.

(** [{sep: 'new', verbose: true}], and a process whose [verb.options]
    still hold [{sep: 'old'}] from an earlier call. *)
Definition renewed : Value :=
  VObj {[ "sep" := VStr "new"; "verbose" := VBool true ]}.

Definition stale : @State (libs plain) :=
  {| verb := set_options (Some {[ "sep" := VStr "old" ]}) verb0;
     fs := disk; trace := [];
     loop := (None, EmptyString) : @World (libs plain) |}.

(** A process in which [verb.init] has run. *)
Definition warm : @State (libs plain) :=
  {| verb := MkVerb true (VBool false) (ext verb0) (runner verb0)
               (verbrc verb0) None None ∅ VUndef None;
     fs := disk; trace := [];
     loop := (None, EmptyString) : @World (libs plain) |}.

(** [{destBase: 'elsewhere', glob: {cwd: 'lib'}}] *)
Definition based : Value :=
  VObj {[ "destBase" := VStr "elsewhere";
          "glob" := VObj {[ "cwd" := VStr "lib" ]} ]}.

(** The state of a fresh process with the files [files] on disk. *)
Definition boot (s : Setup) (files : gmap string string) : @State (libs s) :=
  {| verb := verb0; fs := files; trace := [];
     loop := (None, EmptyString) : @World (libs s) |}.

End Sample.

(** ** The context builder *)

Section Context_builder.
Context `{L : Libs}.

Lemma runner_init o v : runner (init o v) = runner v.
Proof. destruct v as [[] ]; reflexivity. Qed.

Lemma ext_init o v : ext (init o v) = ext v.
Proof. destruct v as [[] ]; reflexivity. Qed.

Lemma runner_update_context f v : runner (update_context f v) = runner v.
Proof. by destruct v. Qed.

Lemma runner_update_context' f v : runner (update_context' f v) = runner v.
Proof. by destruct v. Qed.

Lemma context_update_context f v :
  context (update_context f v) = f (context v).
Proof. by destruct v. Qed.

Lemma context_update_context' f v :
  context (update_context' f v) = f (context v).
Proof. by destruct v. Qed.

Lemma runner_merge f v : runner (merge f v) = runner v.
Proof. apply runner_update_context. Qed.

Lemma context_merge f v : context (merge f v) = as_obj (f v) ∪ context v.
Proof. apply context_update_context. Qed.

Lemma runner_add f v : runner (add f v) = runner v.
Proof. apply runner_update_context'. Qed.

Lemma context_add f v : context (add f v) = as_obj (f v) ∪ context v.
Proof. apply context_update_context'. Qed.

Lemma runner_set_page p v : runner (set_page p v) = runner v.
Proof. by destruct v. Qed.

Lemma context_set_page p v : context (set_page p v) = context v.
Proof. by destruct v. Qed.

Lemma runner_set_layout l v : runner (set_layout l v) = runner v.
Proof. by destruct v. Qed.

Lemma context_set_layout l v : context (set_layout l v) = context v.
Proof. by destruct v. Qed.

Lemma runner_base o v : runner (base o v) = runner v.
Proof.
  unfold base. rewrite runner_update_context, <- (runner_init (VObj (default_opts o)) v).
  by destruct (init _ v).
Qed.

Lemma context_base o v : context (base o v) !! "config" = None.
Proof.
  unfold base. rewrite context_update_context. apply lookup_delete_eq.
Qed.

Lemma gather_eq src o v :
  gather src o v
  = merge (λ _, page_context (matter src (merged_opts o v)))
      (set_page (matter src (merged_opts o v))
         (merge (λ _, data_init (merged_opts o v))
            (merge filters_init
               (merge tags_init
                  (merge (λ _, data_init (merged_opts o v))
                     (merge (λ _, or_else (get "metadata" (merged_opts o v))
                                    (VObj ∅))
                        (merge (λ _, VObj (merged_opts o v))
                           (set_layout (layout_init (base o v))
                              (base o v))))))))).
Proof. reflexivity. Qed.

Lemma build_eq src o v :
  build src o v
  = add plugins_init
      (add (λ v, VObj {[ "runner" := runner v ]})
         (update_context' (λ c, exclusions c (merged_opts o v))
            (gather src o v))).
Proof. reflexivity. Qed.

Lemma runner_gather src o v : runner (gather src o v) = runner v.
Proof.
  rewrite gather_eq, runner_merge, runner_set_page, !runner_merge,
    runner_set_layout.
  apply runner_base.
Qed.

(** What lines 135-151 leave in [verb.context], outermost last. *)
Lemma context_gather src o v :
  ∃ u1 u2,
    context (gather src o v)
    = as_obj (page_context (matter src (merged_opts o v)))
      ∪ (as_obj (data_init (merged_opts o v))
         ∪ (as_obj (filters_init u2)
            ∪ (as_obj (tags_init u1)
               ∪ (as_obj (data_init (merged_opts o v))
                  ∪ (as_obj (or_else (get "metadata" (merged_opts o v))
                                     (VObj ∅))
                     ∪ (merged_opts o v ∪ context (base o v))))))).
Proof.
  do 2 eexists.
  rewrite gather_eq, context_merge, context_set_page, !context_merge,
    context_set_layout.
  reflexivity.
Qed.

(** What lines 154-158 leave in [verb.context]: the plugins' properties
    over the runner over the filtered context. *)
Lemma context_build src o v :
  ∃ u, context (build src o v)
       = as_obj (plugins_init u)
         ∪ ({[ "runner" := runner v ]}
            ∪ exclusions (context (gather src o v)) (merged_opts o v)).
Proof.
  eexists.
  rewrite build_eq, !context_add, context_update_context',
    runner_update_context', runner_gather.
  reflexivity.
Qed.

(** An option is set when the runtime config or the caller sets it. *)
Lemma lookup_merged_opts o v k :
  is_Some (as_obj (if truthy (get "verbrc" (default_opts o))
                   then configFile_load
                          (cwd (to_string (get "verbrc" (default_opts o))))
                   else verbrc v) !! k)
  ∨ is_Some (as_obj o !! k) →
  is_Some (merged_opts o v !! k).
Proof.
  intros H. unfold merged_opts, extend. apply lookup_union_is_Some.
  destruct H as [H|H]; [by left|right].
  unfold default_opts, extend. apply lookup_union_is_Some. by left.
Qed.

#[local] Opaque build gather base merge add merged_opts.

Lemma process_context fuel src o st r st' :
  process fuel src o st = Some (r, st') →
  r_context r = context (build src o (verb st)).
Proof.
  destruct st as [v0 f0 t0 w0]. unfold process.
  destruct (spin _ _); [|done]. intros [= <- _]. reflexivity.
Qed.

Lemma lookup_build src o v k :
  k ≠ "runner" →
  (∀ u, as_obj (plugins_init u) !! k = None) →
  context (build src o v) !! k
  = exclusions (context (gather src o v)) (merged_opts o v) !! k.
Proof.
  intros Hk Hplug. destruct (context_build src o v) as [u ->].
  rewrite lookup_union_r by apply Hplug.
  rewrite lookup_union_r; [done|]. by apply lookup_singleton_ne.
Qed.

(** C1 (as amended): the merges of [process] take precedence in the
    order in which they are made.  For a key other than [runner] that
    the exclusion filter leaves alone and the plugins do not set: if the
    front matter of the source sets it, the returned context holds the
    front-matter value; and if neither the front matter nor the data,
    tag and filter initializers set it while the [metadata] option does,
    the returned context holds the [metadata] value, whatever the
    package configuration and the other options say. *)
Theorem process_merge_precedence fuel src o st r st' k x :
  process fuel src o st = Some (r, st') →
  k ≠ "runner" →
  (∀ c p, exclusions c p !! k = c !! k) →
  (∀ u, as_obj (plugins_init u) !! k = None) →
  let opts := merged_opts o (verb st) in
  let front := as_obj (page_context (matter src opts)) in
  (front !! k = Some x → r_context r !! k = Some x)
  ∧ (front !! k = None →
     as_obj (data_init opts) !! k = None →
     (∀ u, as_obj (tags_init u) !! k = None) →
     (∀ u, as_obj (filters_init u) !! k = None) →
     as_obj (or_else (get "metadata" opts) (VObj ∅)) !! k = Some x →
     r_context r !! k = Some x).
Proof.
  intros Hrun Hk Hexcl Hplug opts front.
  rewrite (process_context _ _ _ _ _ _ Hrun), lookup_build, Hexcl by done.
  destruct (context_gather src o (verb st)) as (u1 & u2 & ->).
  fold opts front. split.
  - intros Hfront. by apply lookup_union_Some_l.
  - intros Hfront Hdata Htags Hfilters Hmeta.
    rewrite (lookup_union_r front), (lookup_union_r (as_obj (data_init opts)))
      by done.
    rewrite lookup_union_r by apply Hfilters.
    rewrite lookup_union_r by apply Htags.
    rewrite lookup_union_r by done.
    by apply lookup_union_Some_l.
Qed.

(** C2 (the code departs from it): line 129 deletes [config] from the
    base context, and line 135 then merges the options into it, a
    [config] option among them.  So when the caller passes a [config]
    option, the context that reaches the exclusion filter on line 154
    has a [config] key again, whatever the required modules do; and the
    context that [process] returns has one whenever the exclusion filter
    leaves that key alone. *)
Theorem process_config_key fuel src o st r st' :
  process fuel src o st = Some (r, st') →
  is_Some (as_obj o !! "config") →
  is_Some (context (gather src o (verb st)) !! "config")
  ∧ ((∀ c p, exclusions c p !! "config" = c !! "config") →
     is_Some (r_context r !! "config")).
Proof.
  intros Hrun Ho.
  assert (is_Some (context (gather src o (verb st)) !! "config")) as Hgather.
  { destruct (context_gather src o (verb st)) as (u1 & u2 & ->).
    do 6 (apply lookup_union_is_Some; right).
    apply lookup_union_is_Some. left. apply lookup_merged_opts.
    by right. }
  split; [exact Hgather|]. intros Hexcl.
  rewrite (process_context _ _ _ _ _ _ Hrun).
  destruct (context_build src o (verb st)) as [u ->].
  do 2 (apply lookup_union_is_Some; right). by rewrite Hexcl.
Qed.

(** C3 (as amended): the runner identity is merged in after the
    exclusion filter and after every earlier step, none of which can
    override it; only the plugins are merged in later.  When the plugins
    set no [runner] key, the returned context holds [verb.runner] under
    [runner]. *)
Theorem process_runner fuel src o st r st' :
  process fuel src o st = Some (r, st') →
  (∀ u, as_obj (plugins_init u) !! "runner" = None) →
  r_context r !! "runner" = Some (runner (verb st)).
Proof.
  intros Hrun Hplug. rewrite (process_context _ _ _ _ _ _ Hrun).
  destruct (context_build src o (verb st)) as [u ->].
  rewrite lookup_union_r by apply Hplug.
  apply lookup_union_Some_l, lookup_singleton_eq.
Qed.

End Context_builder.

(** ** The context builder at work *)

Lemma returned {A B} (x : option (A * B)) :
  match x with Some _ => true | None => false end = true →
  ∃ r st', x = Some (r, st').
Proof. destruct x as [[r st']|]; [eauto|discriminate]. Qed.

Lemma returned_with {A B C} (f : A → option C) (x : option (A * B)) c :
  (x ≫= λ '(r, _), f r) = Some c → ∃ r st', x = Some (r, st') ∧ f r = Some c.
Proof. destruct x as [[r st']|]; [eauto|discriminate]. Qed.

Section Context_examples.
Import Sample.

Lemma process_merge_precedence_witness :
  (∃ r st', @process (libs plain) 0 "Body" titled (boot plain ∅)
            = Some (r, st')
            ∧ r_context r !! "title" = Some (VStr "B"))
  ∧ (∃ r st', @process (libs fronted) 0 "Body" titled (boot fronted ∅)
              = Some (r, st')
              ∧ r_context r !! "title" = Some (VStr "C")).
Proof.
  split.
  - destruct (returned (@process (libs plain) 0 "Body" titled (boot plain ∅))
                ltac:(vm_compute; reflexivity)) as (r & st' & Hrun).
    exists r, st'. split; [exact Hrun|].
    eapply (proj2 (@process_merge_precedence (libs plain) 0 "Body" titled
                     (boot plain ∅) r st' "title" (VStr "B") Hrun
                     ltac:(discriminate) ltac:(intros; reflexivity)
                     ltac:(intros; vm_compute; reflexivity)));
      try (vm_compute; reflexivity); intros; vm_compute; reflexivity.
  - destruct (returned (@process (libs fronted) 0 "Body" titled
                          (boot fronted ∅))
                ltac:(vm_compute; reflexivity)) as (r & st' & Hrun).
    exists r, st'. split; [exact Hrun|].
    eapply (proj1 (@process_merge_precedence (libs fronted) 0 "Body" titled
                     (boot fronted ∅) r st' "title" (VStr "C") Hrun
                     ltac:(discriminate) ltac:(intros; reflexivity)
                     ltac:(intros; vm_compute; reflexivity))).
    vm_compute. reflexivity.
Defined.

(** C1, as stated, fails on the reserved key: with [runner] set by the
    package configuration, by [metadata] and by the front matter, the
    returned context holds none of these values but [verb.runner]. *)
Lemma process_metadata_loses_runner :
  as_obj (get "config" (as_obj titled)) !! "runner" = Some (VStr "A")
  ∧ as_obj (get "metadata" (as_obj titled)) !! "runner" = Some (VStr "B")
  ∧ as_obj (frontmatter fronted) !! "runner" = Some (VStr "C")
  ∧ (∃ r st', @process (libs fronted) 0 "Body" titled (boot fronted ∅)
              = Some (r, st')
              ∧ r_context r !! "runner" = Some (runner verb0))
  ∧ runner verb0 ≠ VStr "B" ∧ runner verb0 ≠ VStr "C".
Proof.
  split; [vm_compute; reflexivity|].
  split; [vm_compute; reflexivity|].
  split; [vm_compute; reflexivity|].
  split; [|split; discriminate].
  apply (returned_with (λ r, r_context r !! "runner")).
  vm_compute. reflexivity.
Qed.

Lemma process_config_key_witness :
  is_Some (as_obj titled !! "config")
  ∧ ∃ r st',
      @process (libs plain) 0 "Body" titled (boot plain ∅) = Some (r, st')
      ∧ is_Some (context (@gather (libs plain) "Body" titled verb0) !! "config")
      ∧ is_Some (r_context r !! "config").
Proof.
  assert (is_Some (as_obj titled !! "config")) as Ho.
  { eexists. vm_compute. reflexivity. }
  split; [exact Ho|].
  destruct (returned (@process (libs plain) 0 "Body" titled (boot plain ∅))
              ltac:(vm_compute; reflexivity)) as (r & st' & Hrun).
  exists r, st'. split; [exact Hrun|].
  destruct (@process_config_key (libs plain) 0 "Body" titled (boot plain ∅)
              r st' Hrun Ho) as [Hgather Hreturned].
  split; [exact Hgather|]. apply Hreturned. intros c p. reflexivity.
Defined.

Lemma process_runner_witness :
  ∃ r st',
    @process (libs fronted) 0 "Body" titled (boot fronted ∅) = Some (r, st')
    ∧ r_context r !! "runner" = Some (runner verb0).
Proof.
  destruct (returned (@process (libs fronted) 0 "Body" titled
                        (boot fronted ∅))
              ltac:(vm_compute; reflexivity)) as (r & st' & Hrun).
  exists r, st'. split; [exact Hrun|].
  refine (@process_runner (libs fronted) 0 "Body" titled (boot fronted ∅)
            r st' Hrun _).
  intros u. vm_compute. reflexivity.
Defined.

(** C3, as stated, fails when a plugin contributes a [runner] key: the
    plugins are merged in on line 158, after the runner identity. *)
Lemma process_plugin_overrides_runner :
  (∃ r st',
     @process (libs plugged) 0 "Body" VUndef (boot plugged ∅) = Some (r, st')
     ∧ r_context r !! "runner" = Some (VStr "plugin"))
  ∧ VStr "plugin" ≠ runner verb0.
Proof.
  split; [|discriminate].
  apply (returned_with (λ r, r_context r !! "runner")).
  vm_compute. reflexivity.
Qed.

End Context_examples.

(** ** The wait for the tag resolver *)

Section Busy_wait.
Context `{L : Libs}.

Lemma spin_Some fuel w :
  is_Some (spin fuel w)
  ↔ ∃ n, (n ≤ fuel)%nat ∧ is_Some (delivered (Nat.iter n nextTick w)).
Proof.
  revert w. induction fuel as [|fuel IH]; intros w; cbn [spin].
  - destruct (delivered w) eqn:Hw.
    + split; [|by eauto]. intros _. exists 0. cbn. rewrite Hw. eauto.
    + split; [by intros []|]. intros (n & Hn & Hd).
      assert (n = 0) as -> by lia. cbn in Hd. rewrite Hw in Hd.
      by destruct Hd.
  - destruct (delivered w) eqn:Hw.
    + split; [|by eauto]. intros _. exists 0. cbn. rewrite Hw.
      split; [lia|eauto].
    + rewrite IH. split.
      * intros (n & Hn & Hd). exists (S n). split; [lia|].
        by rewrite Nat.iter_succ_r.
      * intros ([|n] & Hn & Hd).
        { cbn in Hd. rewrite Hw in Hd. by destruct Hd. }
        exists n. split; [lia|]. by rewrite <- Nat.iter_succ_r.
Qed.

Lemma process_Some fuel src o st :
  is_Some (process fuel src o st) ↔ is_Some (spin fuel (resolving src o st)).
Proof.
  destruct st as [v0 f0 t0 w0]. unfold process, resolving. cbn [verb loop].
  destruct (spin _ _); [split; intros _; eauto | split; intros [? [=]]].
Qed.

(** C8: [process] returns its result record exactly when the callback
    handed to the tag resolver fires: with [fuel] bounding the number of
    turns of the busy-wait loop, the call returns if and only if the
    callback has fired after at most [fuel] yields.  So a callback that
    fires after [n] yields lets every run of at least [n] turns return,
    and a callback that never fires lets no run return. *)
Theorem process_returns_iff_callback fuel src o st :
  is_Some (process fuel src o st)
  ↔ ∃ n, (n ≤ fuel)%nat
         ∧ is_Some (delivered (Nat.iter n nextTick (resolving src o st))).
Proof. rewrite process_Some. apply spin_Some. Qed.

End Busy_wait.

(** ** The batch driver *)

Section Batch.
Context `{L : Libs}.
Variable fuel : nat.
Hypothesis Hcb : calls_back fuel.

Lemma writes_snoc t e : writes (t ++ [e]) = (writes t ++ writes [e])%list.
Proof. apply flat_map_app. Qed.

Lemma errors_snoc t e : errors (t ++ [e]) = (errors t ++ errors [e])%list.
Proof. apply flat_map_app. Qed.

Lemma bind_run {A B} (m : M A) (k : A → M B) st a st1 :
  m st = Some (a, st1) → bind m k st = k a st1.
Proof. unfold bind. by intros ->. Qed.

Lemma logs_refl st : logs [] st st.
Proof. unfold logs. by rewrite app_nil_r. Qed.

Lemma logs_trans es1 es2 st1 st2 st3 :
  logs es1 st1 st2 → logs es2 st2 st3 → logs (es1 ++ es2) st1 st3.
Proof.
  intros (Hf1 & Hw1 & He1) (Hf2 & Hw2 & He2). unfold logs.
  rewrite Hf2, Hw2, He2, Hf1, Hw1, He1. by rewrite app_assoc.
Qed.

Lemma process_run src o st :
  ∃ r st', process fuel src o st = Some (r, st')
           ∧ fs st' = fs st ∧ trace st' = trace st.
Proof.
  destruct st as [v0 f0 t0 w0]. unfold process.
  match goal with |- context [spin fuel ?w] =>
    destruct (proj2 (spin_Some fuel w)) as [w' ->]; [apply Hcb|] end.
  eauto.
Qed.

Lemma read_run p o st :
  is_Some (fs st !! p) → ∃ c st', read fuel p o st = Some (c, st') ∧ logs [] st st'.
Proof.
  destruct st as [v0 f0 t0 w0]. intros [c Hc]. cbn [fs] in Hc.
  unfold read. cbn [bind with_verb log emit].
  erewrite bind_run by (unfold readFileSync; cbn [fs]; by rewrite Hc).
  match goal with |- context [bind (process fuel c ?o) _ ?st] =>
    destruct (process_run c o st) as (r & st' & Hrun & Hfs & Htr) end.
  erewrite bind_run by exact Hrun.
  cbn [ret]. do 2 eexists. split; [done|].
  unfold logs. rewrite Hfs, Htr. cbn [fs trace].
  by rewrite !writes_snoc, !errors_snoc, !app_nil_r.
Qed.

Lemma log_run ch args st :
  ch ≠ "error" → ∃ st', log ch args st = Some (tt, st') ∧ logs [] st st'.
Proof.
  destruct st as [v0 f0 t0 w0]. intros Hch. unfold log, emit.
  eexists. split; [done|]. unfold logs. cbn [fs trace].
  rewrite writes_snoc, errors_snoc. cbn.
  apply String.eqb_neq in Hch. by rewrite Hch, !app_nil_r.
Qed.

Lemma with_verb_run f st :
  ∃ st', with_verb f st = Some (tt, st') ∧ logs [] st st'
         ∧ verb st' = f (verb st).
Proof.
  destruct st as [v0 f0 t0 w0]. unfold with_verb. eexists.
  split; [done|]. split; [|done]. unfold logs. cbn [fs trace].
  by rewrite app_nil_r.
Qed.

Lemma announce_run p st :
  ∃ st', announce p st = Some (tt, st') ∧ logs [] st st'.
Proof.
  unfold announce.
  match goal with |- context [bind (with_verb ?f) _ st] =>
    destruct (with_verb_run f st) as (st1 & Hv & H1 & _) end.
  rewrite (bind_run _ _ _ _ _ Hv).
  destruct (log_run "run" ["reading"; relative process_cwd p] st1)
    as (st2 & H & H2); [done|].
  exists st2. split; [exact H|]. apply (logs_trans [] [] _ _ _ H1 H2).
Qed.

Lemma check_source_run p st :
  ∃ st', check_source p st = Some (file_exists (fs st) p, st')
         ∧ logs (if file_exists (fs st) p then [] else [not_found p]) st st'.
Proof.
  destruct st as [v0 f0 t0 w0]. unfold check_source, get_fs.
  cbn [bind fs]. destruct (file_exists f0 p).
  - eexists. split; [done|]. apply logs_refl.
  - cbn [bind log emit ret]. eexists. split; [done|].
    unfold logs. cbn [fs trace]. by rewrite writes_snoc, errors_snoc, app_nil_r.
Qed.

Lemma check_sources_run l st :
  ∃ st', filterM check_source l st
         = Some (List.filter (file_exists (fs st)) l, st')
         ∧ logs (map not_found
                   (List.filter (λ p, negb (file_exists (fs st) p)) l)) st st'.
Proof.
  revert st. induction l as [|p l IH]; intros st.
  - exists st. split; [done|]. apply logs_refl.
  - destruct (check_source_run p st) as (st1 & Hp & H1).
    destruct (IH st1) as (st2 & Hl & H2).
    assert (fs st1 = fs st) as Hfs by apply H1. rewrite Hfs in Hl, H2.
    exists st2. cbn [filterM List.filter].
    rewrite (bind_run _ _ _ _ _ Hp), (bind_run _ _ _ _ _ Hl). cbn [ret].
    destruct (file_exists (fs st) p); (split; [done|]).
    + apply (logs_trans [] _ _ _ _ H1 H2).
    + apply (logs_trans [_] _ _ _ _ H1 H2).
Qed.

(** *** With concatenation: the sources are deferred *)

Section Concatenating.
Variables (concat : Value) (opts : Obj).
Hypothesis Hconcat : truthy concat = true.

Lemma defer_sources fp l defer st :
  ∃ st', foldM (each_source fuel concat opts fp) defer l st
         = Some ((defer ++ l)%list, st')
         ∧ logs [] st st'.
Proof.
  revert defer st. induction l as [|p l IH]; intros defer st.
  - exists st. rewrite app_nil_r. split; [done|]. apply logs_refl.
  - destruct (announce_run p st) as (st1 & Hp & H1).
    destruct (IH (defer ++ [p])%list st1) as (st2 & Hl & H2).
    assert (each_source fuel concat opts fp defer p st
            = Some ((defer ++ [p])%list, st1)) as Hstep.
    { unfold each_source. rewrite (bind_run _ _ _ _ _ Hp). cbn beta.
      by rewrite Hconcat. }
    exists st2. cbn [foldM]. rewrite (bind_run _ _ _ _ _ Hstep), Hl.
    rewrite <- app_assoc. split; [done|].
    apply (logs_trans [] [] _ _ _ H1 H2).
Qed.

Lemma defer_mappings maps defer st :
  ∃ st', foldM (each_mapping fuel concat opts) defer maps st
         = Some ((defer ++ existing (fs st) maps)%list, st')
         ∧ logs (map not_found (missing (fs st) maps)) st st'.
Proof.
  revert defer st. induction maps as [|fp maps IH]; intros defer st.
  - exists st. cbn. rewrite app_nil_r. split; [done|]. apply logs_refl.
  - destruct (check_sources_run (m_src fp) st) as (st1 & Hchk & H1).
    destruct (defer_sources fp (List.filter (file_exists (fs st)) (m_src fp))
                defer st1) as (st2 & Hsrc & H2).
    destruct (IH (defer ++ List.filter (file_exists (fs st)) (m_src fp))%list
                st2) as (st3 & Hrest & H3).
    assert (fs st2 = fs st) as Hfs.
    { transitivity (fs st1); [apply H2|apply H1]. }
    rewrite Hfs in Hrest, H3.
    assert (each_mapping fuel concat opts defer fp st
            = Some ((defer ++ List.filter (file_exists (fs st)) (m_src fp))%list,
                    st2)) as Hstep.
    { unfold each_mapping. by rewrite (bind_run _ _ _ _ _ Hchk). }
    exists st3. cbn [foldM]. rewrite (bind_run _ _ _ _ _ Hstep), Hrest.
    unfold existing, missing. cbn [flat_map].
    rewrite app_assoc, map_app. split; [done|].
    pose proof (logs_trans _ _ _ _ _ H1 H2) as H12. rewrite app_nil_r in H12.
    apply (logs_trans _ _ _ _ _ H12 H3).
Qed.

End Concatenating.

(** *** Without concatenation: every source is written at once *)

Lemma file_exists_dom (f : gmap string string) p :
  file_exists f p = bool_decide (p ∈ dom f).
Proof. unfold file_exists. apply bool_decide_ext. by rewrite elem_of_dom. Qed.

Lemma filter_exists (f : gmap string string) l :
  Forall (λ p, is_Some (f !! p)) (List.filter (file_exists f) l).
Proof.
  apply Forall_forall. intros p Hp%list_elem_of_In%filter_In.
  destruct Hp as [_ Hp]. by apply bool_decide_eq_true in Hp.
Qed.

Lemma map_const_length {A B C} (d : C) (a : list A) (b : list B) :
  length a = length b → map (λ _, d) a = map (λ _, d) b.
Proof.
  revert b. induction a as [|x a IH]; intros [|y b]; cbn; try done.
  intros [= H]. by rewrite (IH b H).
Qed.

Section Writing.
Variables (concat : Value) (opts : Obj).
Hypothesis Hconcat : truthy concat = false.

Lemma write_source fp defer p st :
  is_Some (fs st !! p) →
  ∃ c st', each_source fuel concat opts fp defer p st = Some (defer, st')
           ∧ fs st' = <[m_dest fp := c]> (fs st)
           ∧ writes (trace st') = (writes (trace st) ++ [(m_dest fp, c)])%list
           ∧ errors (trace st') = errors (trace st).
Proof.
  intros Hp. destruct (announce_run p st) as (st1 & Ha & Hf1 & Hw1 & He1).
  destruct (read_run p (VObj opts) st1) as (c & st2 & Hr & Hf2 & Hw2 & He2).
  { by rewrite Hf1. }
  rewrite app_nil_r in He1, He2.
  unfold each_source. rewrite (bind_run _ _ _ _ _ Ha). cbn beta.
  rewrite Hconcat. cbn [negb]. rewrite (bind_run _ _ _ _ _ Hr).
  destruct st2 as [v2 f2 t2 w2]. cbn [fs trace] in *.
  unfold bind, writeFileSync, log, emit, ret.
  exists c. eexists. split; [done|]. cbn [fs trace].
  rewrite !writes_snoc, !errors_snoc, Hf2, Hf1, Hw2, Hw1, He2, He1. cbn.
  by rewrite !app_nil_r.
Qed.

Lemma write_sources fp l defer st :
  Forall (λ p, is_Some (fs st !! p)) l →
  ∃ cs st', foldM (each_source fuel concat opts fp) defer l st
            = Some (defer, st')
            ∧ length cs = length l
            ∧ writes (trace st')
              = (writes (trace st) ++ map (λ c, (m_dest fp, c)) cs)%list
            ∧ errors (trace st') = errors (trace st)
            ∧ dom (fs st') = match l with
                             | [] => dom (fs st)
                             | _ :: _ => {[ m_dest fp ]} ∪ dom (fs st)
                             end.
Proof.
  revert st. induction l as [|p l IH]; intros st Hl.
  - exists [], st. cbn. by rewrite app_nil_r.
  - apply Forall_cons in Hl as [Hp Hl].
    destruct (write_source fp defer p st Hp) as (c & st1 & Hstep & Hf1 & Hw1 & He1).
    destruct (IH st1) as (cs & st2 & Hrest & Hlen & Hw2 & He2 & Hd2).
    { rewrite Hf1. eapply Forall_impl; [exact Hl|]. intros q Hq. cbn beta.
      rewrite lookup_insert_is_Some. destruct (decide (m_dest fp = q)); auto. }
    exists (c :: cs), st2. cbn [foldM]. rewrite (bind_run _ _ _ _ _ Hstep).
    split; [done|]. split; [cbn; by rewrite Hlen|].
    split; [rewrite Hw2, Hw1; cbn; by rewrite <- app_assoc|].
    split; [by rewrite He2|].
    rewrite Hd2, Hf1, dom_insert_L. destruct l; [done|].
    by rewrite (assoc_L (∪)), union_idemp_L.
Qed.

Lemma write_mappings maps defer st :
  ∃ ws st', foldM (each_mapping fuel concat opts) defer maps st
            = Some (defer, st')
            ∧ writes (trace st') = (writes (trace st) ++ ws)%list
            ∧ map fst ws = written (dom (fs st)) maps
            ∧ errors (trace st')
              = (errors (trace st)
                 ++ map not_found (reported (dom (fs st)) maps))%list.
Proof.
  revert st. induction maps as [|fp maps IH]; intros st.
  - exists [], st. cbn. by rewrite !app_nil_r.
  - destruct (check_sources_run (m_src fp) st) as (st1 & Hchk & Hf1 & Hw1 & He1).
    destruct (write_sources fp (List.filter (file_exists (fs st)) (m_src fp))
                defer st1) as (cs & st2 & Hsrc & Hlen & Hw2 & He2 & Hd2).
    { rewrite Hf1. apply filter_exists. }
    destruct (IH st2) as (ws & st3 & Hrest & Hw3 & Hfst & He3).
    assert (List.filter (file_exists (fs st)) (m_src fp)
            = found (dom (fs st)) fp) as Hfound.
    { unfold found. apply filter_ext. intros p. apply file_exists_dom. }
    assert (dom (fs st2) = after (dom (fs st)) fp) as Hafter.
    { unfold after. rewrite <- Hfound, Hd2, Hf1. by destruct (List.filter _ _). }
    assert (each_mapping fuel concat opts defer fp st = Some (defer, st2))
      as Hstep.
    { unfold each_mapping. by rewrite (bind_run _ _ _ _ _ Hchk). }
    exists (map (λ c, (m_dest fp, c)) cs ++ ws)%list, st3.
    cbn [foldM written reported]. rewrite (bind_run _ _ _ _ _ Hstep).
    split; [done|]. split; [by rewrite Hw3, Hw2, Hw1, app_assoc|].
    split.
    + rewrite map_app, map_map, Hfst, Hafter. cbn [fst]. f_equal.
      apply map_const_length. by rewrite Hlen, Hfound.
    + rewrite He3, He2, He1, Hafter, map_app, app_assoc. do 3 f_equal.
      apply filter_ext. intros p. by rewrite file_exists_dom.
Qed.

End Writing.

(** *** The options of [expand] *)

Lemma lookup_expand_opts k o :
  k ≠ "glob" → k ≠ "concat" → expand_opts o !! k = as_obj o !! k.
Proof.
  intros Hg Hc. unfold expand_opts, extend.
  rewrite lookup_insert_ne by done. apply lookup_union_l.
  by apply lookup_singleton_ne.
Qed.

Lemma get_expand_opts k o :
  k ≠ "glob" → k ≠ "concat" → get k (expand_opts o) = get k (as_obj o).
Proof. intros. unfold get. by rewrite lookup_expand_opts. Qed.

Lemma truthy_or_else a b : truthy (or_else a b) = truthy a || truthy b.
Proof. unfold or_else. by destruct (truthy a) eqn:Ha. Qed.

Lemma truthy_concat_of o dest :
  truthy (concat_of (expand_opts o) dest)
  = truthy (get "concat" (as_obj o)) || hasExt dest.
Proof.
  unfold concat_of. rewrite !truthy_or_else. cbn [truthy].
  rewrite orb_false_r. f_equal. unfold get, expand_opts, extend.
  rewrite lookup_insert_ne by done.
  destruct (as_obj o !! "concat") as [x|] eqn:Hx.
  - by rewrite (lookup_union_Some_l _ _ _ _ Hx).
  - by rewrite lookup_union_r, lookup_singleton_eq.
Qed.

Lemma get_glob o glob :
  get "glob" (as_obj o) = VObj glob → get "glob" (expand_opts o) = VObj glob.
Proof.
  unfold get at 1. intros Hglob. unfold get, expand_opts.
  rewrite lookup_insert_eq. cbn [default]. unfold get, extend.
  destruct (as_obj o !! "glob") as [x|] eqn:Hx; [|done].
  rewrite (lookup_union_Some_l _ _ _ _ Hx). cbn [default] in *.
  by rewrite Hglob.
Qed.

Lemma mapping_defaults_ext opts dest v1 v2 :
  ext v1 = ext v2 → mapping_defaults opts dest v1 = mapping_defaults opts dest v2.
Proof. unfold mapping_defaults. by intros ->. Qed.

(** *** The phases of [expand] *)

Lemma read_all opts l st :
  Forall (λ p, is_Some (fs st !! p)) l →
  ∃ outs st', mapM (read_deferred fuel opts) l st = Some (outs, st')
              ∧ length outs = length l ∧ logs [] st st'.
Proof.
  revert st. induction l as [|p l IH]; intros st Hl.
  - exists [], st. split; [done|]. split; [done|]. apply logs_refl.
  - apply Forall_cons in Hl as [Hp Hl].
    destruct (announce_run p st) as (st1 & Ha & H1).
    destruct (read_run p (VObj opts) st1) as (c & st2 & Hr & H2).
    { by rewrite (proj1 H1). }
    destruct (IH st2) as (outs & st3 & Hrest & Hlen & H3).
    { by rewrite (proj1 H2), (proj1 H1). }
    assert (read_deferred fuel opts p st = Some (c, st2)) as Hstep.
    { unfold read_deferred. by rewrite (bind_run _ _ _ _ _ Ha). }
    exists (c :: outs), st3. cbn [mapM].
    rewrite (bind_run _ _ _ _ _ Hstep), (bind_run _ _ _ _ _ Hrest).
    split; [done|]. split; [cbn; by rewrite Hlen|].
    apply (logs_trans [] [] _ _ _ (logs_trans [] [] _ _ _ H1 H2) H3).
Qed.

Lemma discover_eq src dest o st :
  ∃ st0, logs [] st st0
         ∧ discover fuel src dest o st
           = foldM (each_mapping fuel (concat_of (expand_opts o) dest)
                      (expand_opts o)) []
               (expandMapping (fs st) src
                  (mapping_defaults (expand_opts o) dest (verb st))) st0.
Proof.
  destruct st as [v0 f0 t0 w0]. unfold discover.
  cbn [bind with_verb get_verb log emit get_fs verb fs].
  eexists. split; [|erewrite mapping_defaults_ext; [reflexivity|]].
  - unfold logs. cbn [fs trace].
    by rewrite !writes_snoc, !errors_snoc, !app_nil_r.
  - destruct (init _ v0) eqn:Hi. cbn.
    by rewrite <- (ext_init (VObj (expand_opts o)) v0), Hi.
Qed.

Lemma farewell_run st : ∃ st', farewell st = Some (tt, st') ∧ logs [] st st'.
Proof.
  destruct st as [v0 f0 t0 w0]. unfold farewell.
  cbn [bind get_verb log emit verb]. eexists. split; [done|].
  unfold logs. cbn [fs trace].
  by rewrite !writes_snoc, !errors_snoc, !app_nil_r.
Qed.

Lemma concatenate_run dest opts defer st :
  Forall (λ p, is_Some (fs st !! p)) defer →
  ∃ outs st2 st',
    mapM (read_deferred fuel opts) defer st = Some (outs, st2)
    ∧ length outs = length defer
    ∧ concatenate fuel dest opts defer st = Some (tt, st')
    ∧ writes (trace st')
      = (writes (trace st) ++ [(dest, join (get "sep" opts) outs)])%list
    ∧ errors (trace st') = errors (trace st).
Proof.
  intros Hl.
  destruct (read_all opts defer st Hl) as (outs & st2 & Hr & Hlen & _ & Hw & He).
  exists outs, st2. unfold concatenate. rewrite (bind_run _ _ _ _ _ Hr).
  destruct st2 as [v2 f2 t2 w2]. cbn [bind writeFileSync log emit].
  eexists. do 2 (split; [done|]). split; [done|]. cbn [trace] in *.
  rewrite !writes_snoc, !errors_snoc, Hw, He. cbn.
  by rewrite !app_nil_r.
Qed.

Lemma existing_exists (f : gmap string string) maps :
  Forall (λ p, is_Some (f !! p)) (existing f maps).
Proof.
  induction maps as [|fp maps IH]; [constructor|].
  unfold existing. cbn [flat_map]. apply Forall_app.
  split; [apply filter_exists|exact IH].
Qed.

Lemma expand_concat_run src dest o st :
  truthy (concat_of (expand_opts o) dest) = true →
  let opts := expand_opts o in
  let maps := expandMapping (fs st) src
                (mapping_defaults opts dest (verb st)) in
  ∃ st1 outs st2 st',
    discover fuel src dest o st = Some (existing (fs st) maps, st1)
    ∧ mapM (read_deferred fuel opts) (existing (fs st) maps) st1
      = Some (outs, st2)
    ∧ length outs = length (existing (fs st) maps)
    ∧ expand fuel src dest o st = Some (tt, st')
    ∧ writes (trace st')
      = (writes (trace st) ++ [(dest, join (get "sep" opts) outs)])%list
    ∧ errors (trace st')
      = (errors (trace st) ++ map not_found (missing (fs st) maps))%list.
Proof.
  intros Hconcat opts maps. subst opts. set (opts := expand_opts o) in *.
  destruct (discover_eq src dest o st) as (st0 & (Hf0 & Hw0 & He0) & Hd).
  fold opts maps in Hd.
  destruct (defer_mappings _ opts Hconcat maps [] st0)
    as (st1 & Hm & Hf1 & Hw1 & He1).
  rewrite Hf0 in Hm, He1. cbn [app] in Hm. rewrite Hm in Hd.
  destruct (concatenate_run dest opts (existing (fs st) maps) st1)
    as (outs & st2 & st3 & Hr & Hlen & Hc & Hw3 & He3).
  { rewrite Hf1, Hf0. apply existing_exists. }
  destruct (farewell_run st3) as (st' & Hbye & _ & Hw4 & He4).
  exists st1, outs, st2, st'. do 3 (split; [done|]).
  split.
  - unfold expand. fold opts. rewrite (bind_run _ _ _ _ _ Hd), Hconcat.
    by rewrite (bind_run _ _ _ _ _ Hc).
  - rewrite Hw4, Hw3, Hw1, Hw0, He4, He3, He1, He0.
    by rewrite !app_nil_r.
Qed.

Lemma expand_each_run src dest o st :
  truthy (concat_of (expand_opts o) dest) = false →
  let maps := expandMapping (fs st) src
                (mapping_defaults (expand_opts o) dest (verb st)) in
  ∃ ws st',
    expand fuel src dest o st = Some (tt, st')
    ∧ writes (trace st') = (writes (trace st) ++ ws)%list
    ∧ map fst ws = written (dom (fs st)) maps
    ∧ errors (trace st')
      = (errors (trace st)
         ++ map not_found (reported (dom (fs st)) maps))%list.
Proof.
  intros Hconcat maps. set (opts := expand_opts o) in *.
  destruct (discover_eq src dest o st) as (st0 & (Hf0 & Hw0 & He0) & Hd).
  fold opts maps in Hd.
  destruct (write_mappings _ opts Hconcat maps [] st0)
    as (ws & st1 & Hm & Hw1 & Hfst & He1).
  rewrite Hf0 in Hfst, He1. rewrite Hm in Hd.
  destruct (farewell_run st1) as (st' & Hbye & _ & Hw2 & He2).
  exists ws, st'. split.
  - unfold expand. fold opts. rewrite (bind_run _ _ _ _ _ Hd), Hconcat.
    by cbn [bind ret].
  - rewrite Hw2, Hw1, Hw0, He2, He1, He0. by rewrite !app_nil_r.
Qed.

(** Every matched path is either found, and written, or reported. *)
Lemma written_or_reported E maps :
  (length (written E maps) + length (reported E maps))%nat
  = length (flat_map m_src maps).
Proof.
  revert E. induction maps as [|fp maps IH]; intros E; [done|].
  cbn [written reported flat_map]. rewrite !length_app, length_map.
  rewrite <- (IH (after E fp)). unfold found.
  assert (∀ (f : string → bool) (l : list string),
            (length (List.filter f l)
             + length (List.filter (λ p, negb (f p)) l))%nat = length l) as H.
  { intros f l. induction l as [|p l IHl]; [done|]. cbn.
    destruct (f p); cbn; lia. }
  specialize (H (λ p, bool_decide (p ∈ E)) (m_src fp)). lia.
Qed.


(** C5: without concatenation, and with a resolver that calls back,
    [expand] returns, having written one file for every matched path
    that was on disk when its mapping was reached, to the destination of
    that mapping, and having logged one error, and written nothing, for
    every matched path that was not; a missing path stops nothing. *)
Theorem expand_each_file src dest o st :
  truthy (get "concat" (as_obj o)) || hasExt dest = false →
  let maps := expandMapping (fs st) src
                (mapping_defaults (expand_opts o) dest (verb st)) in
  ∃ ws st',
    expand fuel src dest o st = Some (tt, st')
    ∧ writes (trace st') = (writes (trace st) ++ ws)%list
    ∧ map fst ws = written (dom (fs st)) maps
    ∧ errors (trace st')
      = (errors (trace st)
         ++ map not_found (reported (dom (fs st)) maps))%list.
Proof.
  intros Hconcat maps. rewrite <- truthy_concat_of in Hconcat.
  apply (expand_each_run src dest o st Hconcat).
Qed.

(** C6: [expand] concatenates exactly when the [concat] option is truthy
    or [dest] has an extension: then its one write goes to [dest];
    otherwise the writes go to the destinations of the mappings, one for
    every path found. *)
Theorem expand_mode src dest o st :
  let maps := expandMapping (fs st) src
                (mapping_defaults (expand_opts o) dest (verb st)) in
  ∃ ws st',
    expand fuel src dest o st = Some (tt, st')
    ∧ writes (trace st') = (writes (trace st) ++ ws)%list
    ∧ map fst ws = if truthy (get "concat" (as_obj o)) || hasExt dest
                   then [dest]
                   else written (dom (fs st)) maps.
Proof.
  intros maps. rewrite <- truthy_concat_of.
  destruct (truthy (concat_of (expand_opts o) dest)) eqn:Hconcat.
  - destruct (expand_concat_run src dest o st Hconcat)
      as (st1 & outs & st2 & st' & _ & _ & _ & He & Hw & _).
    by exists [(dest, join (get "sep" (expand_opts o)) outs)], st'.
  - destruct (expand_each_run src dest o st Hconcat)
      as (ws & st' & He & Hw & Hfst & _).
    by exists ws, st'.
Qed.

Lemma join_with_concat sep xs : join_with sep xs = String.concat sep xs.
Proof.
  induction xs as [|x xs IH]; [done|]. cbn [join_with String.concat].
  destruct xs; [done|]. by rewrite IH.
Qed.

(** C9: with concatenation active and no [sep] option, the outputs are
    joined with a comma, one between every two of them in the order in
    which they were read: [join] is handed [opts.sep], which is
    [undefined], and not the newline that the mapping defaults hold
    under [sep] (unless the [glob] option sets one). *)
Theorem expand_default_separator src dest o st :
  truthy (get "concat" (as_obj o)) || hasExt dest = true →
  get "sep" (as_obj o) = VUndef →
  let opts := expand_opts o in
  let maps := expandMapping (fs st) src
                (mapping_defaults opts dest (verb st)) in
  ∃ st1 outs st2 st',
    discover fuel src dest o st = Some (existing (fs st) maps, st1)
    ∧ mapM (read_deferred fuel opts) (existing (fs st) maps) st1
      = Some (outs, st2)
    ∧ expand fuel src dest o st = Some (tt, st')
    ∧ writes (trace st')
      = (writes (trace st) ++ [(dest, String.concat "," outs)])%list
    ∧ (as_obj (get "glob" opts) !! "sep" = None →
       mapping_defaults opts dest (verb st) !! "sep" = Some (VStr nl)).
Proof.
  intros Hconcat Hsep opts maps. rewrite <- truthy_concat_of in Hconcat.
  destruct (expand_concat_run src dest o st Hconcat)
    as (st1 & outs & st2 & st' & Hd & Hr & _ & He & Hw & _).
  exists st1, outs, st2, st'. do 3 (split; [done|]).
  assert (get "sep" opts = VUndef) as Hsep'.
  { unfold opts. by rewrite get_expand_opts. }
  split.
  - fold opts in Hw. rewrite Hw, Hsep'. unfold join.
    by rewrite join_with_concat.
  - intros Hglob. unfold mapping_defaults, extend.
    rewrite lookup_union_r by exact Hglob.
    rewrite lookup_insert_ne, lookup_insert_eq by done.
    by rewrite Hsep'.
Qed.

End Batch.

(** ** The defaults of the mappings *)

Section Mapping_defaults.
Context `{L : Libs}.

(** C7 (the code departs from it): called with [{ext: '.html'}] in a
    fresh process, [expand] hands the extension [.md] to
    [file.expandMapping]: line 278 reads [verb.ext || opts.ext], and
    [verb.ext] is never empty. *)
Theorem expand_ignores_ext_option dest :
  get "ext" (as_obj Sample.html) = VStr ".html"
  ∧ mapping_defaults (expand_opts Sample.html) dest verb0 !! "ext"
    = Some (VStr ".md").
Proof. split; reflexivity. Qed.

(** C10: a field of the [glob] option is the value that
    [file.expandMapping] receives under that key, whatever the defaults
    computed from the other options would have put there. *)
Theorem glob_option_wins o dest v glob k x :
  get "glob" (as_obj o) = VObj glob →
  glob !! k = Some x →
  mapping_defaults (expand_opts o) dest v !! k = Some x.
Proof.
  intros Hglob Hk. unfold mapping_defaults.
  rewrite (get_glob _ _ Hglob). by apply lookup_union_Some_l.
Qed.

End Mapping_defaults.

(** ** The program at work *)

Section Examples.
Import Sample.

Lemma sample_calls_back s : delay s = Some 0 → @calls_back (libs s) 0.
Proof.
  intros Hs v rendered w. exists 0. split; [done|]. cbn. rewrite Hs.
  by eexists.
Qed.

(** The resolver of [slow 3] calls back after three yields: two turns of
    the loop are not enough, three are; the resolver of [silent] never
    calls back, and no number of turns is enough. *)
Example process_waits :
  @process (libs (slow 3)) 2 "Body" VUndef (boot (slow 3) ∅) = None
  ∧ (r_content ∘ fst <$> @process (libs (slow 3)) 3 "Body" VUndef
                            (boot (slow 3) ∅)) = Some "Body".
Proof. split; vm_compute; reflexivity. Qed.

Example process_hangs fuel :
  @process (libs silent) fuel "Body" VUndef (boot silent ∅) = None.
Proof.
  apply eq_None_not_Some. intros (n & _ & [r Hr])%process_Some%spin_Some.
  revert Hr. unfold resolving. cbn [tags_resolve libs delay silent].
  assert (∀ w : option nat * string,
            w.1 = None → Nat.iter n (@nextTick (libs silent)) w = w) as ->.
  { intros w Hw. induction n as [|n IH]; [done|]. rewrite Nat.iter_succ, IH.
    by destruct w as [[] ?]. }
  all: done.
Qed.

Example expand_concat_sample :
  (@expand (libs batch) 0 "docs/*.md" "README.md" dashed (boot batch disk)
     ≫= λ '(_, st'), Some (writes (trace st'), errors (trace st')))
  = Some ([("README.md", "A--B")],
          [not_found "docs/gone.md"; not_found "out/a.md"]).
Proof. vm_compute. reflexivity. Qed.

Example expand_comma_sample :
  (@expand (libs batch) 0 "docs/*.md" "README.md" VUndef (boot batch disk)
     ≫= λ '(_, st'), Some (writes (trace st')))
  = Some [("README.md", "A,B")].
Proof. vm_compute. reflexivity. Qed.

Example expand_each_sample :
  (@expand (libs batch) 0 "docs/*.md" "out" dashed (boot batch disk)
     ≫= λ '(_, st'), Some (writes (trace st'), errors (trace st')))
  = Some ([("out/a.md", "A"); ("out/b.md", "A"); ("out/b.md", "B")],
          [not_found "docs/gone.md"]).
Proof. vm_compute. reflexivity. Qed.


Lemma expand_each_file_witness :
  ∃ ws st',
    @expand (libs batch) 0 "docs/*.md" "out" dashed (boot batch disk)
    = Some (tt, st')
    ∧ writes (trace st') = ws
    ∧ map fst ws = ["out/a.md"; "out/b.md"; "out/b.md"]
    ∧ errors (trace st') = [not_found "docs/gone.md"].
Proof.
  exact (@expand_each_file (libs batch) 0 (sample_calls_back batch eq_refl)
           "docs/*.md" "out" dashed (boot batch disk) eq_refl).
Defined.

Lemma expand_mode_witness :
  (∃ ws st',
     @expand (libs batch) 0 "docs/*.md" "README.md" dashed (boot batch disk)
     = Some (tt, st')
     ∧ writes (trace st') = ws ∧ map fst ws = ["README.md"])
  ∧ (∃ ws st',
       @expand (libs batch) 0 "docs/*.md" "out" dashed (boot batch disk)
       = Some (tt, st')
       ∧ writes (trace st') = ws
       ∧ map fst ws = ["out/a.md"; "out/b.md"; "out/b.md"]).
Proof.
  split.
  - exact (@expand_mode (libs batch) 0 (sample_calls_back batch eq_refl)
             "docs/*.md" "README.md" dashed (boot batch disk)).
  - exact (@expand_mode (libs batch) 0 (sample_calls_back batch eq_refl)
             "docs/*.md" "out" dashed (boot batch disk)).
Defined.

Lemma expand_default_separator_witness :
  ∃ st',
    @expand (libs batch) 0 "docs/*.md" "README.md" VUndef (boot batch disk)
    = Some (tt, st')
    ∧ writes (trace st') = [("README.md", "A,B")]
    ∧ @mapping_defaults (libs batch) (expand_opts VUndef) "README.md" verb0
        !! "sep" = Some (VStr nl).
Proof.
  destruct (@expand_default_separator (libs batch) 0
              (sample_calls_back batch eq_refl) "docs/*.md" "README.md" VUndef
              (boot batch disk) eq_refl eq_refl)
    as (st1 & outs & st2 & st' & Hd & Hr & He & Hw & Hsep).
  assert (outs = ["A"; "B"]) as ->.
  { assert ((@discover (libs batch) 0 "docs/*.md" "README.md" VUndef
               (boot batch disk)
               ≫= λ '(l, s1), mapM (read_deferred 0 (expand_opts VUndef)) l s1
               ≫= λ '(xs, _), Some xs) = Some ["A"; "B"]) as Hobs
      by (vm_compute; reflexivity).
    rewrite Hd in Hobs. cbn [mbind option_bind] in Hobs.
    rewrite Hr in Hobs. cbn [mbind option_bind] in Hobs.
    by injection Hobs. }
  exists st'. split; [exact He|]. split; [exact Hw|].
  apply Hsep. vm_compute. reflexivity.
Defined.

Lemma glob_option_wins_witness :
  get "ext" (as_obj globbed) = VStr ".txt"
  ∧ @mapping_defaults (libs plain) (expand_opts globbed) "out" verb0 !! "ext"
    = Some (VStr ".html").
Proof.
  split; [reflexivity|].
  exact (@glob_option_wins (libs plain) globbed "out" verb0
           {[ "ext" := VStr ".html"; "cwd" := VStr "lib" ]} "ext"
           (VStr ".html") eq_refl eq_refl).
Defined.

End Examples.

(** ** More on [init] and [process] *)

Section Settings.
Context `{L : Libs}.

(** X1: [init] takes effect once: a second call, whatever its options,
    changes nothing. *)
Theorem init_once o1 o2 v : init o2 (init o1 v) = init o1 v.
Proof. destruct v as [[] ]; reflexivity. Qed.

(** The properties of [verb] that the building of the context leaves
    alone. *)
Definition settled (v v' : Verb) : Prop :=
  initalized v' = initalized v ∧ mode_verbose v' = mode_verbose v
  ∧ options v' = options v ∧ verbrc v' = verbrc v ∧ ext v' = ext v.

Lemma settled_trans v1 v2 v3 : settled v1 v2 → settled v2 v3 → settled v1 v3.
Proof.
  intros (?&?&?&?&?) (?&?&?&?&?). repeat split; etransitivity; eauto.
Qed.

Lemma settled_update_context f v : settled v (update_context f v).
Proof. by destruct v. Qed.

Lemma settled_update_context' f v : settled v (update_context' f v).
Proof. by destruct v. Qed.

Lemma settled_set_page p v : settled v (set_page p v).
Proof. by destruct v. Qed.

Lemma settled_set_layout l v : settled v (set_layout l v).
Proof. by destruct v. Qed.

Lemma settled_merge f v : settled v (merge f v).
Proof. unfold merge. apply settled_update_context. Qed.

Lemma settled_add f v : settled v (add f v).
Proof. unfold add. apply settled_update_context'. Qed.

Lemma settled_build src o v : settled (base o v) (build src o v).
Proof.
  rewrite build_eq, gather_eq.
  repeat first
    [ eapply settled_trans; [|apply settled_add]
    | eapply settled_trans; [|apply settled_merge]
    | eapply settled_trans; [|apply settled_update_context']
    | eapply settled_trans; [|apply settled_set_page]
    | apply settled_set_layout ].
Qed.

Lemma base_settings o v :
  initalized (base o v) = true
  ∧ mode_verbose (base o v) = mode_verbose (init (VObj (default_opts o)) v)
  ∧ options (base o v) = Some (merged_opts o v)
  ∧ verbrc (base o v) = verbrc v ∧ ext (base o v) = ext v.
Proof. unfold base. destruct v as [[] ]; repeat split. Qed.

Lemma build_settings src o v :
  initalized (build src o v) = true
  ∧ mode_verbose (build src o v) = mode_verbose (init (VObj (default_opts o)) v)
  ∧ options (build src o v) = Some (merged_opts o v)
  ∧ verbrc (build src o v) = verbrc v ∧ ext (build src o v) = ext v.
Proof.
  destruct (settled_build src o v) as (-> & -> & -> & -> & ->).
  apply base_settings.
Qed.

#[local] Opaque build merged_opts.

(** What [process] leaves behind, whenever it returns. *)
Lemma process_frame fuel src o st r st' :
  process fuel src o st = Some (r, st') →
  fs st' = fs st ∧ trace st' = trace st
  ∧ verb st' = build src o (verb st) ∧ r_verb r = verb st'
  ∧ r_original r = src.
Proof.
  destruct st as [v0 f0 t0 w0]. unfold process.
  destruct (spin _ _); [|done]. intros [= <- <-]. done.
Qed.

(** X3: once the module is initialized, the [verbose] option of a call
    to [process] is ignored: the mode stays what the first call made it. *)
Theorem process_keeps_verbosity fuel src o st r st' :
  initalized (verb st) = true →
  process fuel src o st = Some (r, st') →
  mode_verbose (verb st') = mode_verbose (verb st).
Proof.
  intros Hinit Hrun.
  destruct (process_frame _ _ _ _ _ _ Hrun) as (_ & _ & -> & _).
  destruct (build_settings src o (verb st)) as (_ & -> & _).
  destruct (verb st) as [[] ]; [done|discriminate].
Qed.

(** Lines 116-121. *)
Definition runtime_config (o : Value) (v : Verb) : Value :=
  if truthy (get "verbrc" (default_opts o))
  then configFile_load (cwd (to_string (get "verbrc" (default_opts o))))
  else verbrc v.

Lemma merged_opts_eq o v :
  merged_opts o v = extend (default_opts o) (runtime_config o v).
Proof. reflexivity. Qed.

(** X4: the options that [process] works with, and leaves in
    [verb.options]: for every key the runtime config comes first, then
    the options of the caller, then the default [toc: {maxDepth: 2}]. *)
Theorem process_options fuel src o st r st' k :
  process fuel src o st = Some (r, st') →
  ∃ opts,
    options (verb st') = Some opts
    ∧ opts !! k
      = match as_obj (runtime_config o (verb st)) !! k, as_obj o !! k with
        | Some x, _ => Some x
        | None, Some x => Some x
        | None, None =>
            if decide (k = "toc")
            then Some (VObj {[ "maxDepth" := VNum 2 ]})
            else None
        end.
Proof.
  intros Hrun.
  destruct (process_frame _ _ _ _ _ _ Hrun) as (_ & _ & -> & _).
  destruct (build_settings src o (verb st)) as (_ & _ & -> & _).
  eexists. split; [done|]. rewrite merged_opts_eq. unfold extend, default_opts.
  destruct (as_obj (runtime_config o (verb st)) !! k) as [x|] eqn:Hrc.
  { by apply lookup_union_Some_l. }
  rewrite lookup_union_r by done. unfold extend.
  destruct (as_obj o !! k) as [x|] eqn:Ho.
  { by apply lookup_union_Some_l. }
  rewrite lookup_union_r by done. case_decide as Hk.
  - subst k. apply lookup_singleton_eq.
  - by apply lookup_singleton_ne.
Qed.

End Settings.

Section Rendering.
Context `{L : Libs}.

#[local] Opaque build merged_opts.

Lemma spin_least fuel w w' :
  spin fuel w = Some w' →
  ∃ n, (n ≤ fuel)%nat ∧ w' = Nat.iter n nextTick w
       ∧ is_Some (delivered w')
       ∧ ∀ m, (m < n)%nat → delivered (Nat.iter m nextTick w) = None.
Proof.
  revert w. induction fuel as [|fuel IH]; intros w; cbn [spin];
    destruct (delivered w) eqn:Hw; try done.
  - intros [= <-]. exists 0. rewrite Hw. repeat split; eauto with lia.
  - intros [= <-]. exists 0. rewrite Hw. repeat split; eauto with lia.
  - intros (n & Hn & -> & Hd & Hless)%IH. exists (S n).
    rewrite Nat.iter_succ_r. repeat split; [lia|done|].
    intros [|m] Hm; [done|]. rewrite Nat.iter_succ_r. apply Hless. lia.
Qed.

(** X5: the busy-wait yields exactly as often as it takes: when
    [process] returns, the event loop has been advanced by the least
    number of [process.nextTick()] calls after which the callback has
    fired. *)
Theorem process_yields_until_callback fuel src o st r st' :
  process fuel src o st = Some (r, st') →
  ∃ n, (n ≤ fuel)%nat
       ∧ loop st' = Nat.iter n nextTick (resolving src o st)
       ∧ is_Some (delivered (loop st'))
       ∧ ∀ m, (m < n)%nat →
              delivered (Nat.iter m nextTick (resolving src o st)) = None.
Proof.
  destruct st as [v0 f0 t0 w0]. unfold process, resolving. cbn [verb loop].
  destruct (spin _ _) as [w|] eqn:Hspin; [|done]. intros [= _ <-].
  cbn [loop]. by apply spin_least.
Qed.

(** X6: the content that [process] returns is made from what the tag
    resolver handed to the callback, post-processed and passed through
    the table-of-contents insertion with the [toc] option; the output of
    the template engine reaches it only through the resolver. *)
Theorem process_content fuel src o st r st' :
  process fuel src o st = Some (r, st') →
  ∃ results,
    delivered (loop st') = Some results
    ∧ r_content r
      = toc_insert (postProcess results (merged_opts o (verb st)))
          (get "toc" (merged_opts o (verb st))).
Proof.
  destruct st as [v0 f0 t0 w0]. unfold process. cbn [verb].
  destruct (spin _ _) as [w|] eqn:Hspin; [|done]. intros [= <- <-].
  destruct (spin_least _ _ _ Hspin) as (_ & _ & _ & [results Hres] & _).
  exists results. cbn [loop r_content]. by rewrite Hres.
Qed.

(** X7: the context that [process] returns always has a [runner] key:
    the exclusion filter cannot remove it, since it is added afterwards. *)
Theorem process_context_has_runner fuel src o st r st' :
  process fuel src o st = Some (r, st') → is_Some (r_context r !! "runner").
Proof.
  intros Hrun. rewrite (process_context _ _ _ _ _ _ Hrun).
  destruct (context_build src o (verb st)) as [u ->].
  apply lookup_union_is_Some. right.
  apply lookup_union_is_Some. left. rewrite lookup_singleton_eq. eauto.
Qed.

(** X8: the plugins have the last word: a key that the plugin
    initializer sets is in the returned context with the plugins' value,
    whatever the earlier steps and the exclusion filter did with it. *)
Theorem process_plugins_win fuel src o st r st' k x :
  process fuel src o st = Some (r, st') →
  (∀ u, as_obj (plugins_init u) !! k = Some x) →
  r_context r !! k = Some x.
Proof.
  intros Hrun Hplug. rewrite (process_context _ _ _ _ _ _ Hrun).
  destruct (context_build src o (verb st)) as [u ->].
  by apply lookup_union_Some_l.
Qed.

(** [verb.config] and [verb.context] are one object. *)
Definition shared (v : Verb) : Prop := config v = Some (context v).

Lemma shared_update_context f v : shared v → shared (update_context f v).
Proof. destruct v. unfold shared. cbn. by intros ->. Qed.

Lemma shared_merge f v : shared v → shared (merge f v).
Proof. unfold merge. apply shared_update_context. Qed.

Lemma shared_set_page p v : shared v → shared (set_page p v).
Proof. by destruct v. Qed.

Lemma shared_set_layout l v : shared v → shared (set_layout l v).
Proof. by destruct v. Qed.

Lemma shared_base o v c :
  config_init (get "config" (merged_opts o v)) = Some c → shared (base o v).
Proof.
  intros Hc. unfold base, shared. destruct (init _ v). cbn. by rewrite Hc.
Qed.

(** X9: when [lib/config] yields an object, everything that lines
    135-151 merge into the context is written into that object:
    [verb.config] and [verb.context] are the same when the exclusion
    filter is reached, so the configuration then holds the options, the
    metadata and the front matter as well. *)
Theorem gather_writes_into_config src o v c :
  config_init (get "config" (merged_opts o v)) = Some c →
  config (gather src o v) = Some (context (gather src o v)).
Proof.
  intros Hc. rewrite gather_eq.
  repeat first [apply shared_merge | apply shared_set_page].
  apply shared_set_layout. by eapply shared_base.
Qed.

End Rendering.

(** ** More on [read] and [copy] *)

Section Single_file.
Context `{L : Libs}.
Variable normalizeSlash : string → string.

Lemma merged_opts_verbrc o v1 v2 :
  verbrc v1 = verbrc v2 → merged_opts o v1 = merged_opts o v2.
Proof. rewrite !merged_opts_eq. unfold runtime_config. by intros ->. Qed.

Lemma verbrc_prepared o x v : verbrc (set_options x (init o v)) = verbrc v.
Proof. destruct v as [[] ]; reflexivity. Qed.

Lemma options_init o v : options (init o v) = options v.
Proof. destruct v as [[] ]; reflexivity. Qed.

(** X10: [read] of a path that is not on disk fails, as
    [file.readFileSync] does; nothing is rendered. *)
Theorem read_missing fuel p o st : fs st !! p = None → read fuel p o st = None.
Proof.
  destruct st as [v0 f0 t0 w0]. cbn [fs]. intros Hp. unfold read.
  cbn [bind with_verb log emit]. unfold bind at 1, readFileSync. cbn [fs].
  by rewrite Hp.
Qed.

(** X11: whenever [read] returns, the file was on disk and the content
    is what [process] makes of its text with the options of the caller;
    no file has been written and no error logged; and [verb.options] is
    the options object of that [process] call, so the [src] that [read]
    records in [verb.options] on line 199 is kept only if the options of
    the caller or the runtime config carry one. *)
Theorem read_returns fuel p o st c st' :
  read fuel p o st = Some (c, st') →
  ∃ text st1 r,
    fs st !! p = Some text
    ∧ process fuel text (or_else o (VObj ∅)) st1 = Some (r, st')
    ∧ c = r_content r
    ∧ fs st' = fs st
    ∧ writes (trace st') = writes (trace st)
    ∧ errors (trace st') = errors (trace st)
    ∧ options (verb st')
      = Some (merged_opts (or_else o (VObj ∅)) (verb st)).
Proof.
  destruct st as [v0 f0 t0 w0]. unfold read.
  cbn [bind with_verb log emit]. unfold bind at 1, readFileSync. cbn [fs].
  destruct (f0 !! p) as [text|]; [|done]. unfold bind, ret.
  match goal with |- context [process fuel text ?o' ?s] =>
    set (st1 := s); destruct (process fuel text o' st1) as [[r st2]|] eqn:Hrun
  end; [|done].
  intros [= <- <-]. exists text, st1, r.
  destruct (process_frame _ _ _ _ _ _ Hrun) as (Hf & Ht & Hv & _).
  do 3 (split; [done|]). rewrite Hf, Ht, Hv. subst st1. cbn [fs trace verb].
  rewrite !writes_snoc, !errors_snoc. cbn. rewrite !app_nil_r.
  do 3 (split; [done|]).
  destruct (build_settings text (or_else o (VObj ∅))
              (set_options
                 (Some (extend (<["src":=VStr (cwd p)]>
                                  (default ∅ (options (init (or_else o (VObj ∅)) v0))))
                          (or_else o (VObj ∅))))
                 (init (or_else o (VObj ∅)) v0))) as (_ & _ & -> & _).
  f_equal. apply merged_opts_verbrc, verbrc_prepared.
Qed.

(** X12: [copy] of a source that is not on disk fails. *)
Theorem copy_missing fuel src dest o st :
  fs st !! src = None → copy normalizeSlash fuel src dest o st = None.
Proof.
  destruct st as [v0 f0 t0 w0]. cbn [fs]. intros Hp. unfold copy.
  cbn [bind with_verb get_verb log emit verb]. unfold bind at 1.
  by rewrite read_missing.
Qed.

(** What [copy] does, whenever it returns. *)
Lemma copy_returns fuel src dest o st st' :
  copy normalizeSlash fuel src dest o st = Some (tt, st') →
  ∃ st1 c st2,
    read fuel src
      (extended (or_else o (VObj ∅))
         (VObj (<["dest" := VStr (cwd dest)]>
                  (<["src" := VStr (cwd src)]> (default ∅ (options (verb st)))))))
      st1 = Some (c, st2)
    ∧ fs st1 = fs st ∧ verb st' = verb st2 ∧ verbrc (verb st1) = verbrc (verb st)
    ∧ writes (trace st1) = writes (trace st)
    ∧ errors (trace st1) = errors (trace st)
    ∧ fs st' = <[dest := c]> (fs st2)
    ∧ writes (trace st') = (writes (trace st2) ++ [(dest, c)])%list
    ∧ errors (trace st') = errors (trace st2).
Proof.
  destruct st as [v0 f0 t0 w0]. unfold copy.
  cbn [bind with_verb get_verb log emit verb]. rewrite options_init.
  cbn [default]. unfold bind at 1.
  match goal with |- context [read fuel src ?o' ?s] =>
    set (st1 := s); set (o1 := o');
    destruct (read fuel src o1 st1) as [[c st2]|] eqn:Hread
  end; [|done].
  destruct st2 as [v2 f2 t2 w2]. unfold farewell.
  cbn [bind writeFileSync get_verb log emit verb]. intros [= <-].
  exists st1, c, (MkState v2 f2 t2 w2). subst st1 o1.
  assert (options (set_options
                     (Some (<["dest":=VStr (cwd dest)]>
                              (<["src":=VStr (cwd src)]>
                                 (default ∅ (options v0)))))
                     (init (or_else o (VObj ∅)) v0))
          = Some (<["dest":=VStr (cwd dest)]>
                    (<["src":=VStr (cwd src)]> (default ∅ (options v0)))))
    as Hopts by (by destruct (init _ v0)).
  rewrite Hopts in Hread. cbn [default] in Hread.
  split; [exact Hread|]. cbn [fs trace verb].
  rewrite verbrc_prepared, !writes_snoc, !errors_snoc. cbn.
  by rewrite !app_nil_r.
Qed.

End Single_file.

Section Copying.
Context `{L : Libs}.
Variable normalizeSlash : string → string.

(** X13: with a source that is on disk and a resolver that calls back,
    [copy] returns, having written exactly one file, [dest], and logged
    no error; nothing else on disk has changed. *)
Theorem copy_writes_dest fuel src dest o st :
  calls_back fuel →
  is_Some (fs st !! src) →
  ∃ c st',
    copy normalizeSlash fuel src dest o st = Some (tt, st')
    ∧ writes (trace st') = (writes (trace st) ++ [(dest, c)])%list
    ∧ errors (trace st') = errors (trace st)
    ∧ fs st' = <[dest := c]> (fs st).
Proof.
  intros Hcb Hsrc. destruct st as [v0 f0 t0 w0]. unfold copy.
  cbn [bind with_verb get_verb log emit verb].
  match goal with |- context [bind (read fuel src ?o' ) _ ?s] =>
    destruct (read_run fuel Hcb src o' s) as (c & st2 & Hread & Hf & Hw & He)
  end; [exact Hsrc|].
  rewrite (bind_run _ _ _ _ _ Hread). destruct st2 as [v2 f2 t2 w2].
  unfold farewell. cbn [bind writeFileSync get_verb log emit verb].
  exists c. eexists. split; [done|]. cbn [fs trace] in *.
  rewrite !writes_snoc in Hw. rewrite !errors_snoc in He. cbn in Hw, He.
  rewrite !app_nil_r in Hw, He.
  rewrite !writes_snoc, !errors_snoc, Hw, He, Hf. cbn. by rewrite !app_nil_r.
Qed.

(** X14: in [copy] the options left in [verb.options] by earlier calls
    override those of the caller (line 229 extends the caller's options
    with [verb.options]), and they stay: a key other than [src] and
    [dest] that [verb.options] holds is still there, with its old value,
    when [copy] returns, whatever the caller passed for it (the caller
    passing an object or nothing, and the runtime config not setting the
    key). *)
Theorem copy_keeps_stale_options fuel src dest o st st' ob old k x :
  copy normalizeSlash fuel src dest o st = Some (tt, st') →
  or_else o (VObj ∅) = VObj ob →
  options (verb st) = Some old →
  old !! k = Some x →
  k ≠ "src" → k ≠ "dest" →
  as_obj (verbrc (verb st)) !! k = None →
  (∀ p, as_obj (configFile_load p) !! k = None) →
  ∃ new, options (verb st') = Some new ∧ new !! k = Some x.
Proof.
  intros Hcopy Ho Hold Hk Hsrc Hdest Hrc Hload.
  destruct (copy_returns _ _ _ _ _ _ _ Hcopy)
    as (st1 & c & st2 & Hread & _ & -> & Hvrc & _).
  destruct (read_returns _ _ _ _ _ _ Hread) as (_ & _ & _ & _ & _ & _ & _ & _ & _ & ->).
  eexists. split; [done|]. rewrite Ho, Hold. cbn [extended default or_else truthy].
  rewrite merged_opts_eq. unfold extend at 1.
  rewrite lookup_union_r.
  - unfold default_opts, extend. apply lookup_union_Some_l. cbn [as_obj].
    apply lookup_union_Some_l. by rewrite !lookup_insert_ne.
  - unfold runtime_config. rewrite Hvrc. by destruct (truthy _).
Qed.

End Copying.

(** ** More on [expand] *)

Section Disk.
Context `{L : Libs}.

(** The files other than [keep] are as they were. *)
Definition spares (keep : list string) (st st' : State) : Prop :=
  ∀ q, q ∉ keep → fs st' !! q = fs st !! q.

Lemma spares_same keep st st' : fs st' = fs st → spares keep st st'.
Proof. intros Hf q _. by rewrite Hf. Qed.

Lemma spares_trans keep st1 st2 st3 :
  spares keep st1 st2 → spares keep st2 st3 → spares keep st1 st3.
Proof. intros H1 H2 q Hq. by rewrite H2, H1. Qed.

Lemma foldM_spares {A B} (f : B → A → M B) keep l b st b' st' :
  (∀ a b1 st1 b2 st2,
     a ∈ l → f b1 a st1 = Some (b2, st2) → spares keep st1 st2) →
  foldM f b l st = Some (b', st') → spares keep st st'.
Proof.
  revert b st. induction l as [|a l IH]; intros b st Hf; cbn [foldM].
  - intros [= _ <-]. by apply spares_same.
  - unfold bind. destruct (f b a st) as [[b1 st1]|] eqn:Hstep; [|done].
    intros Hrest. eapply spares_trans.
    + eapply Hf; [|exact Hstep]. by left.
    + eapply IH; [|exact Hrest]. intros. eapply Hf; [by right|done].
Qed.

Lemma mapM_spares {A B} (f : A → M B) keep l st bs st' :
  (∀ a st1 b st2, f a st1 = Some (b, st2) → spares keep st1 st2) →
  mapM f l st = Some (bs, st') → spares keep st st'.
Proof.
  intros Hf. revert st bs. induction l as [|a l IH]; intros st bs; cbn [mapM].
  - intros [= _ <-]. by apply spares_same.
  - unfold bind at 1. destruct (f a st) as [[b st1]|] eqn:Hstep; [|done].
    unfold bind at 1. destruct (mapM f l st1) as [[bs1 st2]|] eqn:Hrest;
      [|done].
    intros [= _ <-]. eapply spares_trans; eauto.
Qed.

Lemma read_spares fuel keep p o st c st' :
  read fuel p o st = Some (c, st') → spares keep st st'.
Proof.
  intros (_ & _ & _ & _ & _ & _ & Hf & _)%read_returns. by apply spares_same.
Qed.

Lemma each_source_spares fuel concat opts fp defer p st defer' st' :
  each_source fuel concat opts fp defer p st = Some (defer', st') →
  spares [m_dest fp] st st'.
Proof.
  unfold each_source. destruct (announce_run p st) as (st1 & Ha & Hf1 & _).
  rewrite (bind_run _ _ _ _ _ Ha). cbn beta.
  destruct (truthy concat); cbn [negb].
  - intros [= _ <-]. by apply spares_same.
  - unfold bind at 1.
    destruct (read fuel p (VObj opts) st1) as [[c st2]|] eqn:Hread; [|done].
    apply read_returns in Hread as (_ & _ & _ & _ & _ & _ & Hf2 & _).
    destruct st2 as [v2 f2 t2 w2]. cbn [bind writeFileSync log emit ret].
    intros [= _ <-] q Hq. cbn [fs] in *. rewrite <- Hf1, <- Hf2.
    apply lookup_insert_ne. intros <-. apply Hq. by left.
Qed.

Lemma elem_of_map_dest fp (maps : list Mapping) :
  fp ∈ maps → m_dest fp ∈ map m_dest maps.
Proof.
  induction maps as [|fp' maps IH]; inversion 1; subst; cbn;
    [by left|right; auto].
Qed.

Lemma each_mapping_spares fuel concat opts defer fp st defer' st' :
  each_mapping fuel concat opts defer fp st = Some (defer', st') →
  spares [m_dest fp] st st'.
Proof.
  unfold each_mapping.
  destruct (check_sources_run (m_src fp) st) as (st1 & Hchk & Hf1 & _).
  rewrite (bind_run _ _ _ _ _ Hchk). intros Hfold.
  eapply spares_trans; [by apply spares_same|].
  eapply foldM_spares; [|exact Hfold].
  intros. by eapply each_source_spares.
Qed.

(** X15: whenever [expand] returns, every file other than [dest] and
    the destinations of the mappings is on disk as it was: sources are
    read, never written. *)
Theorem expand_spares_other_files fuel src dest o st st' q :
  expand fuel src dest o st = Some (tt, st') →
  q ≠ dest →
  q ∉ map m_dest (expandMapping (fs st) src
                    (mapping_defaults (expand_opts o) dest (verb st))) →
  fs st' !! q = fs st !! q.
Proof.
  intros Hrun Hdest Hmaps.
  set (maps := expandMapping _ _ _) in *.
  set (keep := dest :: map m_dest maps).
  assert (spares keep st st') as Hspares;
    [|apply Hspares; by apply not_elem_of_cons].
  unfold expand in Hrun.
  destruct (discover_eq fuel src dest o st) as (st0 & (Hf0 & _) & Hd).
  fold maps in Hd. revert Hrun. unfold bind at 1. rewrite Hd.
  destruct (foldM _ _ _ _) as [[defer st1]|] eqn:Hfold; [|done].
  assert (spares keep st st1) as H1.
  { eapply spares_trans; [by apply spares_same|].
    eapply foldM_spares; [|exact Hfold].
    intros fp b1 s1 b2 s2 Hfp Hstep p Hp.
    apply (each_mapping_spares _ _ _ _ _ _ _ _ Hstep).
    intros ->%list_elem_of_singleton. apply Hp. right.
    by apply elem_of_map_dest. }
  unfold bind at 1.
  destruct (truthy (concat_of (expand_opts o) dest)).
  - unfold concatenate. unfold bind at 1.
    destruct (mapM _ _ _) as [[outs st2]|] eqn:Hreads; [|done].
    assert (spares keep st1 st2) as H2.
    { eapply mapM_spares; [|exact Hreads]. intros p s1 c s2. unfold read_deferred.
      destruct (announce_run p s1) as (s1' & Ha & Hfa & _).
      rewrite (bind_run _ _ _ _ _ Ha). intros Hread.
      eapply spares_trans; [by apply spares_same|].
      by eapply read_spares. }
    destruct st2 as [v2 f2 t2 w2]. cbn [bind writeFileSync log emit].
    destruct (farewell_run
                (MkState v2 (<[dest:=join (get "sep" (expand_opts o)) outs]> f2)
                   ((t2 ++ [Write dest (join (get "sep" (expand_opts o)) outs)])
                    ++ [Log "subhead" ["writing"; relative process_cwd dest]])
                   w2)) as (st3 & -> & Hf3 & _).
    intros [= <-]. eapply spares_trans; [exact H1|].
    eapply spares_trans; [exact H2|].
    intros p Hp. rewrite Hf3. cbn [fs]. apply lookup_insert_ne.
    intros <-. apply Hp. by left.
  - cbn [ret]. destruct (farewell_run st1) as (st3 & -> & Hf3 & _).
    intros [= <-]. eapply spares_trans; [exact H1|]. by apply spares_same.
Qed.

End Disk.

Section Batch_edges.
Context `{L : Libs}.

(** X16: with concatenation active and none of the matched paths on
    disk (or nothing matched), [expand] still writes [dest], as an empty
    file. *)
Theorem expand_concat_of_nothing fuel src dest o st :
  calls_back fuel →
  truthy (get "concat" (as_obj o)) || hasExt dest = true →
  existing (fs st)
    (expandMapping (fs st) src
       (mapping_defaults (expand_opts o) dest (verb st))) = [] →
  ∃ st', expand fuel src dest o st = Some (tt, st')
         ∧ writes (trace st') = (writes (trace st) ++ [(dest, EmptyString)])%list.
Proof.
  intros Hcb Hconcat Hnone. rewrite <- truthy_concat_of in Hconcat.
  destruct (expand_concat_run fuel Hcb src dest o st Hconcat)
    as (st1 & outs & st2 & st' & _ & _ & Hlen & He & Hw & _).
  rewrite Hnone in Hlen. destruct outs; [|done].
  exists st'. split; [done|]. by rewrite Hw.
Qed.

(** X17: with concatenation active, too, every matched path that is not
    on disk is reported with one error line, in the order of the
    mappings, and is left out of the joined content. *)
Theorem expand_concat_reports_missing fuel src dest o st :
  calls_back fuel →
  truthy (get "concat" (as_obj o)) || hasExt dest = true →
  let maps := expandMapping (fs st) src
                (mapping_defaults (expand_opts o) dest (verb st)) in
  ∃ outs st',
    expand fuel src dest o st = Some (tt, st')
    ∧ errors (trace st')
      = (errors (trace st) ++ map not_found (missing (fs st) maps))%list
    ∧ length outs = length (existing (fs st) maps)
    ∧ writes (trace st')
      = (writes (trace st) ++ [(dest, join (get "sep" (as_obj o)) outs)])%list.
Proof.
  intros Hcb Hconcat maps. rewrite <- truthy_concat_of in Hconcat.
  destruct (expand_concat_run fuel Hcb src dest o st Hconcat)
    as (st1 & outs & st2 & st' & _ & _ & Hlen & He & Hw & Herr).
  exists outs, st'. do 3 (split; [done|]).
  by rewrite Hw, get_expand_opts.
Qed.

(** X18: without concatenation every matched path is accounted for:
    the files written and the errors logged are together as many as the
    paths that the mappings list. *)
Theorem expand_accounts_for_every_path fuel src dest o st :
  calls_back fuel →
  truthy (get "concat" (as_obj o)) || hasExt dest = false →
  let maps := expandMapping (fs st) src
                (mapping_defaults (expand_opts o) dest (verb st)) in
  ∃ ws es st',
    expand fuel src dest o st = Some (tt, st')
    ∧ writes (trace st') = (writes (trace st) ++ ws)%list
    ∧ errors (trace st') = (errors (trace st) ++ es)%list
    ∧ (length ws + length es)%nat = length (flat_map m_src maps).
Proof.
  intros Hcb Hconcat maps. rewrite <- truthy_concat_of in Hconcat.
  destruct (expand_each_run fuel Hcb src dest o st Hconcat)
    as (ws & st' & He & Hw & Hfst & Herr).
  exists ws, (map not_found (reported (dom (fs st)) maps)), st'.
  do 3 (split; [done|]).
  rewrite <- (length_map fst ws), Hfst, length_map.
  apply written_or_reported.
Qed.

(** X19: [srcBase] is copied from [cwd] on line 281, before the [glob]
    option is merged in: a [cwd] given in the [glob] option replaces
    [cwd] in what [file.expandMapping] receives, and leaves [srcBase] at
    the [cwd] option or the working directory. *)
Theorem glob_cwd_leaves_srcBase o dest v glob x :
  get "glob" (as_obj o) = VObj glob →
  glob !! "cwd" = Some x →
  glob !! "srcBase" = None →
  mapping_defaults (expand_opts o) dest v !! "cwd" = Some x
  ∧ mapping_defaults (expand_opts o) dest v !! "srcBase"
    = Some (or_else (get "cwd" (as_obj o)) (VStr (cwd "."))).
Proof.
  intros Hglob Hcwd Hsrc. unfold mapping_defaults.
  rewrite (get_glob _ _ Hglob). unfold extend. cbn [as_obj]. split.
  - by apply lookup_union_Some_l.
  - rewrite lookup_union_r by done. rewrite lookup_insert_eq.
    unfold get at 1. rewrite lookup_insert_ne, lookup_insert_eq by done.
    cbn [default]. by rewrite get_expand_opts.
Qed.

(** X20: the [destBase] option is never read: unless the [glob] option
    sets one, the [destBase] that [file.expandMapping] receives is the
    [dest] argument, whatever the options say. *)
Theorem destBase_is_dest o dest v :
  as_obj (get "glob" (expand_opts o)) !! "destBase" = None →
  mapping_defaults (expand_opts o) dest v !! "destBase" = Some (VStr dest).
Proof.
  intros Hglob. unfold mapping_defaults, extend.
  rewrite lookup_union_r by done.
  by rewrite !lookup_insert_ne, lookup_singleton_eq.
Qed.

End Batch_edges.

(** ** More of the program at work *)

Section Further_examples.
Import Sample.

Lemma returned_unit {B} (x : option (unit * B)) :
  match x with Some _ => true | None => false end = true →
  ∃ st', x = Some (tt, st').
Proof. destruct x as [[[] st']|]; [eauto|discriminate]. Qed.

Lemma process_keeps_verbosity_witness :
  get "verbose" (as_obj renewed) = VBool true
  ∧ ∃ r st',
      @process (libs plain) 0 "Body" renewed warm = Some (r, st')
      ∧ mode_verbose (verb st') = VBool false.
Proof.
  split; [reflexivity|].
  destruct (returned (@process (libs plain) 0 "Body" renewed warm)
              ltac:(vm_compute; reflexivity)) as (r & st' & Hrun).
  exists r, st'. split; [exact Hrun|].
  exact (@process_keeps_verbosity (libs plain) 0 "Body" renewed warm r st'
           eq_refl Hrun).
Defined.

Lemma process_options_witness :
  ∃ r st',
    @process (libs plain) 0 "Body" renewed (boot plain ∅) = Some (r, st')
    ∧ ∃ opts, options (verb st') = Some opts
              ∧ opts !! "toc" = Some (VObj {[ "maxDepth" := VNum 2 ]}).
Proof.
  destruct (returned (@process (libs plain) 0 "Body" renewed (boot plain ∅))
              ltac:(vm_compute; reflexivity)) as (r & st' & Hrun).
  exists r, st'. split; [exact Hrun|].
  exact (@process_options (libs plain) _ _ _ _ _ _ "toc" Hrun).
Defined.

Lemma process_yields_until_callback_witness :
  ∃ r st',
    @process (libs (slow 3)) 5 "Body" VUndef (boot (slow 3) ∅) = Some (r, st')
    ∧ ∃ n, (n ≤ 5)%nat
           ∧ loop st'
             = Nat.iter n (@nextTick (libs (slow 3)))
                 (@resolving (libs (slow 3)) "Body" VUndef (boot (slow 3) ∅))
           ∧ is_Some (@delivered (libs (slow 3)) (loop st'))
           ∧ ∀ m, (m < n)%nat →
                  @delivered (libs (slow 3))
                    (Nat.iter m (@nextTick (libs (slow 3)))
                       (@resolving (libs (slow 3)) "Body" VUndef
                          (boot (slow 3) ∅))) = None.
Proof.
  destruct (returned (@process (libs (slow 3)) 5 "Body" VUndef
                        (boot (slow 3) ∅))
              ltac:(vm_compute; reflexivity)) as (r & st' & Hrun).
  exists r, st'. split; [exact Hrun|].
  exact (@process_yields_until_callback (libs (slow 3)) _ _ _ _ _ _ Hrun).
Defined.

Lemma process_content_witness :
  ∃ r st',
    @process (libs (slow 3)) 5 "Body" VUndef (boot (slow 3) ∅) = Some (r, st')
    ∧ ∃ results,
        @delivered (libs (slow 3)) (loop st') = Some results
        ∧ r_content r = results.
Proof.
  destruct (returned (@process (libs (slow 3)) 5 "Body" VUndef
                        (boot (slow 3) ∅))
              ltac:(vm_compute; reflexivity)) as (r & st' & Hrun).
  exists r, st'. split; [exact Hrun|].
  exact (@process_content (libs (slow 3)) _ _ _ _ _ _ Hrun).
Defined.

Lemma process_context_has_runner_witness :
  ∃ r st',
    @process (libs omitting) 0 "Body" titled (boot omitting ∅) = Some (r, st')
    ∧ is_Some (r_context r !! "runner").
Proof.
  destruct (returned (@process (libs omitting) 0 "Body" titled
                        (boot omitting ∅))
              ltac:(vm_compute; reflexivity)) as (r & st' & Hrun).
  exists r, st'. split; [exact Hrun|].
  exact (@process_context_has_runner (libs omitting) _ _ _ _ _ _ Hrun).
Defined.

Lemma process_plugins_win_witness :
  ∃ r st',
    @process (libs plugged) 0 "Body" titled (boot plugged ∅) = Some (r, st')
    ∧ r_context r !! "runner" = Some (VStr "plugin").
Proof.
  destruct (returned (@process (libs plugged) 0 "Body" titled
                        (boot plugged ∅))
              ltac:(vm_compute; reflexivity)) as (r & st' & Hrun).
  exists r, st'. split; [exact Hrun|].
  refine (@process_plugins_win (libs plugged) _ _ _ _ _ _ "runner"
            (VStr "plugin") Hrun _).
  intros u. vm_compute. reflexivity.
Defined.

Lemma gather_writes_into_config_witness :
  config (@gather (libs plain) "Body" titled verb0)
  = Some (context (@gather (libs plain) "Body" titled verb0)).
Proof.
  refine (@gather_writes_into_config (libs plain) "Body" titled verb0
            {[ "title" := VStr "A"; "runner" := VStr "A" ]} _).
  vm_compute. reflexivity.
Defined.

Lemma read_missing_witness :
  @read (libs plain) 0 "docs/gone.md" VUndef (boot plain disk) = None.
Proof.
  refine (@read_missing (libs plain) 0 "docs/gone.md" VUndef
            (boot plain disk) _).
  vm_compute. reflexivity.
Defined.

Lemma read_returns_witness :
  ∃ c st',
    @read (libs plain) 0 "docs/a.md" dashed (boot plain disk) = Some (c, st')
    ∧ ∃ text st1 r,
        disk !! "docs/a.md" = Some text
        ∧ @process (libs plain) 0 text dashed st1 = Some (r, st')
        ∧ c = r_content r
        ∧ fs st' = disk
        ∧ writes (trace st') = []
        ∧ errors (trace st') = []
        ∧ options (verb st') = Some (@merged_opts (libs plain) dashed verb0).
Proof.
  destruct (returned (@read (libs plain) 0 "docs/a.md" dashed
                        (boot plain disk))
              ltac:(vm_compute; reflexivity)) as (c & st' & Hrun).
  exists c, st'. split; [exact Hrun|].
  exact (@read_returns (libs plain) _ _ _ _ _ _ Hrun).
Defined.

Lemma copy_missing_witness :
  @copy (libs plain) (λ p, p) 0 "docs/gone.md" "out.md" VUndef
    (boot plain disk) = None.
Proof.
  refine (@copy_missing (libs plain) (λ p, p) 0 "docs/gone.md" "out.md"
            VUndef (boot plain disk) _).
  vm_compute. reflexivity.
Defined.

Lemma copy_writes_dest_witness :
  ∃ c st',
    @copy (libs plain) (λ p, p) 0 "docs/a.md" "out.md" VUndef
      (boot plain disk) = Some (tt, st')
    ∧ writes (trace st') = [("out.md", c)]
    ∧ errors (trace st') = []
    ∧ fs st' = <["out.md" := c]> disk.
Proof.
  refine (@copy_writes_dest (libs plain) (λ p, p) 0 "docs/a.md" "out.md"
            VUndef (boot plain disk) (sample_calls_back plain eq_refl) _).
  vm_compute. eauto.
Defined.

Lemma copy_keeps_stale_options_witness :
  get "sep" (as_obj renewed) = VStr "new"
  ∧ ∃ st',
      @copy (libs plain) (λ p, p) 0 "docs/a.md" "out.md" renewed stale
      = Some (tt, st')
      ∧ ∃ new, options (verb st') = Some new ∧ new !! "sep" = Some (VStr "old").
Proof.
  split; [reflexivity|].
  destruct (returned_unit
              (@copy (libs plain) (λ p, p) 0 "docs/a.md" "out.md" renewed stale)
              ltac:(vm_compute; reflexivity)) as (st' & Hrun).
  exists st'. split; [exact Hrun|].
  refine (@copy_keeps_stale_options (libs plain) (λ p, p) 0 "docs/a.md"
            "out.md" renewed stale st' (as_obj renewed)
            {[ "sep" := VStr "old" ]} "sep" (VStr "old") Hrun
            eq_refl eq_refl eq_refl _ _ _ _);
    first [discriminate | intros; vm_compute; reflexivity].
Defined.

Lemma expand_spares_other_files_witness :
  ∃ st',
    @expand (libs batch) 0 "docs/*.md" "out" dashed (boot batch disk)
    = Some (tt, st')
    ∧ fs st' !! "docs/a.md" = Some "A".
Proof.
  destruct (returned_unit
              (@expand (libs batch) 0 "docs/*.md" "out" dashed
                 (boot batch disk))
              ltac:(vm_compute; reflexivity)) as (st' & Hrun).
  exists st'. split; [exact Hrun|].
  rewrite (@expand_spares_other_files (libs batch) 0 "docs/*.md" "out" dashed
             (boot batch disk) st' "docs/a.md" Hrun).
  - vm_compute. reflexivity.
  - discriminate.
  - cbn. repeat (apply not_elem_of_cons; split; [discriminate|]).
    apply not_elem_of_nil.
Defined.

Lemma expand_concat_of_nothing_witness :
  ∃ st',
    @expand (libs batch) 0 "docs/*.md" "README.md" dashed (boot batch ∅)
    = Some (tt, st')
    ∧ writes (trace st') = [("README.md", EmptyString)].
Proof.
  refine (@expand_concat_of_nothing (libs batch) 0 "docs/*.md" "README.md"
            dashed (boot batch ∅) (sample_calls_back batch eq_refl) _ _);
    vm_compute; reflexivity.
Defined.

Lemma expand_concat_reports_missing_witness :
  ∃ outs st',
    @expand (libs batch) 0 "docs/*.md" "README.md" dashed (boot batch disk)
    = Some (tt, st')
    ∧ errors (trace st') = [not_found "docs/gone.md"; not_found "out/a.md"]
    ∧ length outs = 2
    ∧ writes (trace st') = [("README.md", join (VStr "--") outs)].
Proof.
  exact (@expand_concat_reports_missing (libs batch) 0 "docs/*.md"
           "README.md" dashed (boot batch disk)
           (sample_calls_back batch eq_refl) eq_refl).
Defined.

Lemma expand_accounts_for_every_path_witness :
  ∃ ws es st',
    @expand (libs batch) 0 "docs/*.md" "out" dashed (boot batch disk)
    = Some (tt, st')
    ∧ writes (trace st') = ws
    ∧ errors (trace st') = es
    ∧ (length ws + length es)%nat = 4.
Proof.
  exact (@expand_accounts_for_every_path (libs batch) 0 "docs/*.md" "out"
           dashed (boot batch disk) (sample_calls_back batch eq_refl) eq_refl).
Defined.

Lemma glob_cwd_leaves_srcBase_witness :
  @mapping_defaults (libs plain) (expand_opts based) "out" verb0 !! "cwd"
  = Some (VStr "lib")
  ∧ @mapping_defaults (libs plain) (expand_opts based) "out" verb0 !! "srcBase"
    = Some (VStr ".").
Proof.
  exact (@glob_cwd_leaves_srcBase (libs plain) based "out" verb0
           {[ "cwd" := VStr "lib" ]} (VStr "lib") eq_refl eq_refl eq_refl).
Defined.

Lemma destBase_is_dest_witness :
  get "destBase" (as_obj based) = VStr "elsewhere"
  ∧ @mapping_defaults (libs plain) (expand_opts based) "out" verb0
      !! "destBase" = Some (VStr "out").
Proof.
  split; [reflexivity|].
  refine (@destBase_is_dest (libs plain) based "out" verb0 _).
  vm_compute. reflexivity.
Defined.

End Further_examples.
